(** * spanner_orm/admin/metadata.py: catalog compilation and schema changes

    A shallow embedding of [DatabaseMetadata]: the three catalog reads, the
    folds that turn their rows into nested dictionaries, the synthesis of one
    model class per table, and the three guarded schema-change entry points.

    Python dictionaries are finite maps ([gmap]); a [defaultdict] is a finite
    map read with a default; the dictionary the code iterates over keeps its
    keys in insertion order as well ([Dict]).  Exceptions and calls to
    collaborators (the
    [where] fetch of the schema classes, the [validate] and [ddl] methods
    of an update, [DatabaseAdminApi.update_schema]) are threaded through a
    small state-and-exception monad whose state records every collaborator
    call. *)

From stdpp Require Import gmap strings list fin_maps sorting.

Local Open Scope string_scope.
Local Open Scope Z_scope.
Local Open Scope list_scope.
Set Warnings "-clear-no-such-hyp".

(** ** Exceptions and outcomes *)

(** The exceptions [metadata.py] raises itself are [AssertionError] (a failed
    [assert]), [KeyError] (a failed subscript on a plain [dict]) and
    [ValueError] (the built-in [type] refusing a class name); anything a
    collaborator raises is carried through unchanged. *)
Inductive Exception :=
| AssertionError
| KeyError (key : string)
| ValueError (message : string)
| OtherError (name : string).

Inductive Outcome (A : Type) :=
| Returns (a : A)
| Raises (e : Exception).
Arguments Returns {A} a.
Arguments Raises {A} e.

(** The value of an outcome, or [fallback] when it is an exception. *)
Definition returned {A} (fallback : A) (o : Outcome A) : A :=
  match o with
  | Returns a => a
  | Raises _ => fallback
  end.

#[global] Instance Outcome_ret : MRet Outcome := @Returns.
#[global] Instance Outcome_bind : MBind Outcome := λ A B f o,
  match o with
  | Returns a => f a
  | Raises e => Raises e
  end.

(** ** Conditions handed to the fetch primitive *)

Inductive Value :=
| VNone
| VBool (b : bool)
| VInt (z : Z)
| VStr (s : string).

#[global] Instance Value_eq_dec : EqDecision Value.
Proof. solve_decision. Defined.

Inductive OrderType := ASC | DESC.

Inductive Condition :=
| EqualityCondition (column : string) (value : Value)
| InequalityCondition (column : string) (value : Value)
| OrderByCondition (ordering : string * OrderType).

(** ** Catalog rows *)

(** Modelled from the spec: the row classes of [spanner_orm.schemas] are not
    part of this file; a ColumnSchema row is [(table_name, column_name, type)]
    scoped by the catalog and schema namespace columns the reads filter on.
    [type] stands for the result of the row's [type()] method. *)
Module ColumnSchema.
Record t := {
  table_catalog : string;
  table_schema : string;
  table_name : string;
  column_name : string;
  type : string
}.

Definition field (row : t) (column : string) : Value :=
  match column with
  | "table_catalog" => VStr (table_catalog row)
  | "table_schema" => VStr (table_schema row)
  | "table_name" => VStr (table_name row)
  | "column_name" => VStr (column_name row)
  | "type" => VStr (type row)
  | _ => VNone
  end.
End ColumnSchema.

(** Modelled from the spec: an IndexColumnSchema row is
    [(table_name, index_name, column_name, ordinal_position)] with an optional
    integer position, again scoped by catalog and schema. *)
Module IndexColumnSchema.
Record t := {
  table_catalog : string;
  table_schema : string;
  table_name : string;
  index_name : string;
  column_name : string;
  ordinal_position : option Z
}.

Definition field (row : t) (column : string) : Value :=
  match column with
  | "table_catalog" => VStr (table_catalog row)
  | "table_schema" => VStr (table_schema row)
  | "table_name" => VStr (table_name row)
  | "index_name" => VStr (index_name row)
  | "column_name" => VStr (column_name row)
  | "ordinal_position" =>
      match ordinal_position row with
      | Some position => VInt position
      | None => VNone
      end
  | _ => VNone
  end.
End IndexColumnSchema.

(** Modelled from the spec: an IndexSchema row is
    [(table_name, index_name, index_type, is_unique, index_state)]. *)
Module IndexSchema.
Record t := {
  table_catalog : string;
  table_schema : string;
  table_name : string;
  index_name : string;
  index_type : string;
  is_unique : bool;
  index_state : string
}.

Definition field (row : t) (column : string) : Value :=
  match column with
  | "table_catalog" => VStr (table_catalog row)
  | "table_schema" => VStr (table_schema row)
  | "table_name" => VStr (table_name row)
  | "index_name" => VStr (index_name row)
  | "index_type" => VStr (index_type row)
  | "is_unique" => VBool (is_unique row)
  | "index_state" => VStr (index_state row)
  | _ => VNone
  end.
End IndexSchema.

(** ** Derived structures *)

(** The dictionary literal built for every index at lines 119-124, with its
    four fixed keys. *)
Module Index.
Record t := {
  columns : list string;
  type : string;
  unique : bool;
  state : string
}.
End Index.

(** The class object built by [type('Model_...', (Model,), {...})]: its name
    and the three attributes placed in its namespace.  Each attribute is the
    closure [make_method] or [make_classmethod] returns, called with no
    argument. *)
Module Model.
Record t := {
  name : string;
  primary_index_keys : unit → list string;
  schema : unit → gmap string string;
  table : unit → string
}.
End Model.

(** Modelled from the spec: the update classes of [spanner_orm.update] are not
    part of this file; a schema-change request is one of three variants and
    exposes [table()], [validate(descriptor?)] and [ddl(descriptor?)]. *)
Inductive UpdateClass := ColumnUpdate | CreateTableUpdate | IndexUpdate.

#[global] Instance UpdateClass_eq_dec : EqDecision UpdateClass.
Proof. solve_decision. Defined.

Module SchemaUpdate.
Record t := {
  class : UpdateClass;
  table : string;
  validate : option Model.t → Outcome unit;
  ddl : option Model.t → Outcome string
}.
End SchemaUpdate.

Definition isinstance (schema_change : SchemaUpdate.t) (c : UpdateClass) : bool :=
  bool_decide (SchemaUpdate.class schema_change = c).

(** ** Collaborators and the call monad *)

Inductive Relation := ColumnSchemaRows | IndexColumnSchemaRows | IndexSchemaRows.

(** One entry per call that leaves [metadata.py]. *)
Inductive Event (Transaction : Type) :=
| Fetched (relation : Relation) (transaction : option Transaction)
    (conditions : list Condition)
| Validated (table : string) (model : option Model.t)
| Rendered (table : string) (model : option Model.t)
| Submitted (ddl : string).
Arguments Fetched {Transaction} relation transaction conditions.
Arguments Validated {Transaction} table model.
Arguments Rendered {Transaction} table model.
Arguments Submitted {Transaction} ddl.

(** The external interface: the [where] classmethod of each schema class and
    the admin API.  Each call may fail and may change the outside world. *)
Class Collaborators (Transaction World : Type) := {
  ColumnSchema_where :
    option Transaction → list Condition → World →
    Outcome (list ColumnSchema.t) * World;
  IndexColumnSchema_where :
    option Transaction → list Condition → World →
    Outcome (list IndexColumnSchema.t) * World;
  IndexSchema_where :
    option Transaction → list Condition → World →
    Outcome (list IndexSchema.t) * World;
  DatabaseAdminApi_update_schema :
    string → World → Outcome unit * World
}.

Record State (Transaction World : Type) := {
  world : World;
  calls : list (Event Transaction)
}.
Arguments world {Transaction World} s.
Arguments calls {Transaction World} s.

Definition M (Transaction World A : Type) : Type :=
  State Transaction World → Outcome A * State Transaction World.

#[global] Instance M_ret {Transaction World} : MRet (M Transaction World) :=
  λ A a s, (Returns a, s).
#[global] Instance M_bind {Transaction World} : MBind (M Transaction World) :=
  λ A B f m s,
    match m s with
    | (Returns a, s') => f a s'
    | (Raises e, s') => (Raises e, s')
    end.

Section Primitives.
Context {Transaction World : Type}.

Definition raise {A} (e : Exception) : M Transaction World A :=
  λ s, (Raises e, s).

Definition lift {A} (o : Outcome A) : M Transaction World A :=
  λ s, (o, s).

(** [assert b] *)
Definition assert (b : bool) : M Transaction World unit :=
  if b then mret () else raise AssertionError.

(** The state once the call [e] has left the world as [w]. *)
Definition recorded (e : Event Transaction) (w : World)
    (s : State Transaction World) : State Transaction World :=
  {| world := w; calls := calls s ++ [e] |}.

(** A call to a collaborator: it is run on the world and recorded. *)
Definition call {A} (e : Event Transaction)
    (f : World → Outcome A * World) : M Transaction World A :=
  λ s, let '(r, w) := f (world s) in (r, recorded e w s).
End Primitives.

(** [d[k]] on a plain [dict] with string keys. *)
Definition getitem {A} (d : gmap string A) (k : string) : Outcome A :=
  match d !! k with
  | Some v => Returns v
  | None => Raises (KeyError k)
  end.

(** [d[k]] on a [defaultdict] whose factory yields [factory]. *)
Definition getitem_default `{Countable K} {A} (factory : A) (d : gmap K A) (k : K) : A :=
  default factory (d !! k).

(** A Python [dict] whose iteration order is observed: what its subscripts
    find, and its keys in insertion order, the order in which a [dict]
    yields them.  The other dictionaries of this
    file are only ever subscripted, tested for membership or handed on, so
    for them the mapping alone is kept. *)
Record Dict (V : Type) := {
  content : gmap string V;
  keys : list string
}.
Arguments content {V} d.
Arguments keys {V} d.

#[global] Instance Dict_empty {V} : Empty (Dict V) := {| content := ∅; keys := [] |}.
#[global] Instance Dict_lookup {V} : Lookup string V (Dict V) := λ k d, content d !! k.

(** The keys of a dictionary after [k] was given a value: a new key goes
    last, a known key keeps its place. *)
Definition inserted (k : string) (ks : list string) : list string :=
  if decide (k ∈ ks) then ks else ks ++ [k].

(** [d.items()] *)
Definition items {V} (d : Dict V) : list (string * V) :=
  omap (λ k, (k,.) <$> content d !! k) (keys d).

(** A string holds the character of code 0. *)
Fixpoint contains_null (name : string) : bool :=
  match name with
  | EmptyString => false
  | String a name' => if Ascii.eqb a Ascii.zero then true else contains_null name'
  end.

(** The built-in [type(name, bases, dict)] with the base [Model] and the
    three attributes of lines 77-81: the new class, unless the name holds a
    NUL character, which [type] refuses with [ValueError].  A name is a
    sequence of characters of code 0 to 255, and NUL is the only one of
    them [type] refuses. *)
Definition type_ (name : string) (primary_index_keys : unit → list string)
    (schema : unit → gmap string string) (table : unit → string) : Outcome Model.t :=
  if contains_null name
  then Raises (ValueError "type name must not contain null characters")
  else Returns {| Model.name := name;
                  Model.primary_index_keys := primary_index_keys;
                  Model.schema := schema;
                  Model.table := table |}.

(** The submissions among a list of recorded calls. *)
Definition submissions {Transaction} (l : list (Event Transaction)) : list string :=
  omap (λ e, match e with Submitted ddl => Some ddl | _ => None end) l.

(** The DDL renderings among a list of recorded calls. *)
Definition renderings {Transaction} (l : list (Event Transaction)) : list string :=
  omap (λ e, match e with Rendered table _ => Some table | _ => None end) l.

(** ** DatabaseMetadata *)

Module DatabaseMetadata.
Section Code.
Context {Transaction World : Type} `{!Collaborators Transaction World}.

Local Abbreviation M := (M Transaction World).

(** [ColumnSchema.where(transaction, *conditions)] and its two siblings. *)
Definition where_ColumnSchema transaction conditions : M (list ColumnSchema.t) :=
  call (Fetched ColumnSchemaRows transaction conditions)
       (ColumnSchema_where transaction conditions).
Definition where_IndexColumnSchema transaction conditions : M (list IndexColumnSchema.t) :=
  call (Fetched IndexColumnSchemaRows transaction conditions)
       (IndexColumnSchema_where transaction conditions).
Definition where_IndexSchema transaction conditions : M (list IndexSchema.t) :=
  call (Fetched IndexSchemaRows transaction conditions)
       (IndexSchema_where transaction conditions).

(** [schema_change.validate(...)], [schema_change.ddl(...)] and
    [DatabaseAdminApi.update_schema(...)]. *)
Definition validate (schema_change : SchemaUpdate.t) (model : option Model.t) : M unit :=
  call (Validated (SchemaUpdate.table schema_change) model)
       (λ w, (SchemaUpdate.validate schema_change model, w)).
Definition ddl (schema_change : SchemaUpdate.t) (model : option Model.t) : M string :=
  call (Rendered (SchemaUpdate.table schema_change) model)
       (λ w, (SchemaUpdate.ddl schema_change model, w)).
Definition update_schema (text : string) : M unit :=
  call (Submitted text) (DatabaseAdminApi_update_schema text).

(** Lines 89-91: the conditions of the ColumnSchema read (the IndexSchema
    read at lines 114-116 passes the same two). *)
Definition namespace_conditions : list Condition :=
  [EqualityCondition "table_catalog" (VStr "");
   EqualityCondition "table_schema" (VStr "")].

(** Lines 103-107: the conditions of the IndexColumnSchema read. *)
Definition index_column_conditions : list Condition :=
  [EqualityCondition "table_catalog" (VStr "");
   EqualityCondition "table_schema" (VStr "");
   InequalityCondition "ordinal_position" VNone;
   OrderByCondition ("ordinal_position", ASC)].

(** Line 93: [tables[schema.table_name][schema.column_name] = schema.type()]
    on [tables = defaultdict(dict)]. *)
Definition tables_step (tables : gmap string (gmap string string))
    (schema : ColumnSchema.t) : gmap string (gmap string string) :=
  <[ColumnSchema.table_name schema :=
      <[ColumnSchema.column_name schema := ColumnSchema.type schema]>
        (getitem_default ∅ tables (ColumnSchema.table_name schema))]> tables.

(** The same statement on the dictionary [tables] itself: the mapping as
    [tables_step] leaves it, and the table name among the keys, a table not
    seen before going last. *)
Definition tables_setitem (tables : Dict (gmap string string))
    (schema : ColumnSchema.t) : Dict (gmap string string) :=
  {| content := tables_step (content tables) schema;
     keys := inserted (ColumnSchema.table_name schema) (keys tables) |}.

Definition _tables (transaction : option Transaction)
    : M (Dict (gmap string string)) :=
  schemas ← where_ColumnSchema transaction namespace_conditions;
  mret (foldl tables_setitem ∅ schemas).

(** Lines 111-112: [index_columns[key].append(schema.column_name)] on
    [index_columns = defaultdict(list)]. *)
Definition index_columns_step (index_columns : gmap (string * string) (list string))
    (schema : IndexColumnSchema.t) : gmap (string * string) (list string) :=
  let key := (IndexColumnSchema.table_name schema, IndexColumnSchema.index_name schema) in
  <[key := (getitem_default [] index_columns key
             ++ [IndexColumnSchema.column_name schema])%list]>
    index_columns.

(** Lines 119-124: [indexes[schema.table_name][schema.index_name] = {...}]
    on [indexes = defaultdict(dict)]. *)
Definition indexes_step (index_columns : gmap (string * string) (list string))
    (indexes : gmap string (gmap string Index.t))
    (schema : IndexSchema.t) : gmap string (gmap string Index.t) :=
  <[IndexSchema.table_name schema :=
      <[IndexSchema.index_name schema :=
          {| Index.columns :=
               getitem_default [] index_columns
                 (IndexSchema.table_name schema, IndexSchema.index_name schema);
             Index.type := IndexSchema.index_type schema;
             Index.unique := IndexSchema.is_unique schema;
             Index.state := IndexSchema.index_state schema |}]>
        (getitem_default ∅ indexes (IndexSchema.table_name schema))]> indexes.

Definition _indexes (transaction : option Transaction)
    : M (gmap string (gmap string Index.t)) :=
  index_column_schemas ← where_IndexColumnSchema transaction index_column_conditions;
  let index_columns := foldl index_columns_step ∅ index_column_schemas in
  index_schemas ← where_IndexSchema transaction namespace_conditions;
  let indexes := foldl (indexes_step index_columns) ∅ index_schemas in
  mret indexes.

Definition make_method {A} (retval : A) : unit → A := λ _, retval.
Definition make_classmethod {A} (retval : A) : unit → A := λ _, retval.

(** Lines 75-82: the body of the loop over [tables.items()].  The first
    subscript is on the [defaultdict] [indexes], the second on a plain
    [dict], the third on the literal of [indexes_step]; then the class is
    created and stored. *)
Definition models_step (indexes : gmap string (gmap string Index.t))
    (table_name : string) (schema : gmap string string)
    (results : gmap string Model.t) : Outcome (gmap string Model.t) :=
  primary_key ← getitem (getitem_default ∅ indexes table_name) "PRIMARY_KEY";
  let primary_index := Index.columns primary_key in
  klass ← type_ ("Model_" +:+ table_name)
            (make_method primary_index)
            (make_classmethod schema)
            (make_classmethod table_name);
  mret (<[table_name := klass]> results).

(** Lines 74-82: the loop over [items], the pairs [tables.items()] yields;
    it stops at the first iteration that raises. *)
Fixpoint models_for (indexes : gmap string (gmap string Index.t))
    (items : list (string * gmap string string))
    (results : gmap string Model.t) : Outcome (gmap string Model.t) :=
  match items with
  | [] => Returns results
  | (table_name, schema) :: items' =>
      results' ← models_step indexes table_name schema results;
      models_for indexes items' results'
  end.

(** [tables.items()] yields the tables in the order [_tables] first met
    them; the first table whose iteration raises decides the exception. *)
Definition models (transaction : option Transaction) : M (gmap string Model.t) :=
  tables ← _tables transaction;
  indexes ← _indexes transaction;
  let results := ∅ in
  lift (models_for indexes (items tables) results).

Definition column_update (schema_change : SchemaUpdate.t) : M unit :=
  assert (isinstance schema_change ColumnUpdate);;
  all_models ← models None;
  model ← lift (getitem all_models (SchemaUpdate.table schema_change));
  validate schema_change (Some model);;
  text ← ddl schema_change (Some model);
  update_schema text.

Definition create_table (schema_change : SchemaUpdate.t) : M unit :=
  assert (isinstance schema_change CreateTableUpdate);;
  all_models ← models None;
  assert (bool_decide (SchemaUpdate.table schema_change ∉ dom all_models));;
  validate schema_change None;;
  text ← ddl schema_change None;
  update_schema text.

Definition index_update (schema_change : SchemaUpdate.t) : M unit :=
  assert (isinstance schema_change IndexUpdate);;
  all_models ← models None;
  model ← lift (getitem all_models (SchemaUpdate.table schema_change));
  validate schema_change (Some model);;
  text ← ddl schema_change (Some model);
  update_schema text.
End Code.
End DatabaseMetadata.

(** ** What the fetch primitive is asked for *)

(** Modelled from the spec: the fetch primitive ([where] of
    [spanner_orm.model]) and the conditions of [spanner_orm.condition] are not
    part of this file.  The primitive takes a relation and an ordered set of
    predicates (equality, inequality, order-by with a direction) and returns
    the rows that satisfy the filters, in the requested order. *)
Definition value_compare (x y : Value) : comparison :=
  match x, y with
  | VNone, VNone => Eq
  | VNone, _ => Lt
  | _, VNone => Gt
  | VBool a, VBool b => Bool.compare a b
  | VBool _, _ => Lt
  | _, VBool _ => Gt
  | VInt a, VInt b => Z.compare a b
  | VInt _, _ => Lt
  | _, VInt _ => Gt
  | VStr a, VStr b => String.compare a b
  end.

Section Fetch.
Context {Row : Type} (field : Row → string → Value).

(** A row passes one condition; an order-by filters nothing. *)
Definition selects (c : Condition) (row : Row) : Prop :=
  match c with
  | EqualityCondition column value => field row column = value
  | InequalityCondition column value => field row column ≠ value
  | OrderByCondition _ => True
  end.

#[global] Instance selects_dec c row : Decision (selects c row).
Proof. destruct c; simpl; apply _. Defined.

Definition matches (conditions : list Condition) (row : Row) : Prop :=
  Forall (λ c, selects c row) conditions.

Definition orderings (conditions : list Condition) : list (string * OrderType) :=
  omap (λ c, match c with OrderByCondition o => Some o | _ => None end) conditions.

(** [a] may come before [b] under the requested orderings, the first one
    being the most significant. *)
Fixpoint precedes (os : list (string * OrderType)) (a b : Row) : Prop :=
  match os with
  | [] => True
  | (column, order) :: os' =>
      match
        match order with
        | ASC => value_compare (field a column) (field b column)
        | DESC => value_compare (field b column) (field a column)
        end
      with
      | Lt => True
      | Eq => precedes os' a b
      | Gt => False
      end
  end.

#[global] Instance precedes_dec os a b : Decision (precedes os a b).
Proof.
  induction os as [|[column order] os' IH]; simpl; [apply _|].
  destruct order; destruct (value_compare _ _); apply _.
Defined.

(** The answer [rows] honours the request [conditions] on [relation]: it
    holds exactly the rows that pass every filter, each as often as the
    relation has it, and it is laid out in the requested order. *)
Definition honors (relation : list Row) (conditions : list Condition)
    (rows : list Row) : Prop :=
  rows ≡ₚ filter (matches conditions) relation ∧
  Sorted (precedes (orderings conditions)) rows.

(** A fetch that honours every request. *)
Definition reference_where (conditions : list Condition) (relation : list Row)
    : list Row :=
  merge_sort (precedes (orderings conditions)) (filter (matches conditions) relation).
End Fetch.

(** ** A database to run the code on *)

(** The three catalog relations and the DDL the admin API has received. *)
Record Database := {
  COLUMNS : list ColumnSchema.t;
  INDEX_COLUMNS : list IndexColumnSchema.t;
  INDEXES : list IndexSchema.t;
  received : list string
}.

#[global] Instance reference_collaborators : Collaborators nat Database := {|
  ColumnSchema_where _ conditions db :=
    (Returns (reference_where ColumnSchema.field conditions (COLUMNS db)), db);
  IndexColumnSchema_where _ conditions db :=
    (Returns (reference_where IndexColumnSchema.field conditions (INDEX_COLUMNS db)), db);
  IndexSchema_where _ conditions db :=
    (Returns (reference_where IndexSchema.field conditions (INDEXES db)), db);
  DatabaseAdminApi_update_schema text db :=
    (Returns (),
     {| COLUMNS := COLUMNS db; INDEX_COLUMNS := INDEX_COLUMNS db;
        INDEXES := INDEXES db; received := received db ++ [text] |})
|}.

Definition start (db : Database) : State nat Database :=
  {| world := db; calls := [] |}.

Definition column (table_name column_name type : string) : ColumnSchema.t :=
  {| ColumnSchema.table_catalog := ""; ColumnSchema.table_schema := "";
     ColumnSchema.table_name := table_name;
     ColumnSchema.column_name := column_name;
     ColumnSchema.type := type |}.

Definition index_column (table_name index_name column_name : string)
    (ordinal_position : option Z) : IndexColumnSchema.t :=
  {| IndexColumnSchema.table_catalog := ""; IndexColumnSchema.table_schema := "";
     IndexColumnSchema.table_name := table_name;
     IndexColumnSchema.index_name := index_name;
     IndexColumnSchema.column_name := column_name;
     IndexColumnSchema.ordinal_position := ordinal_position |}.

Definition index (table_name index_name index_type : string) (is_unique : bool)
    : IndexSchema.t :=
  {| IndexSchema.table_catalog := ""; IndexSchema.table_schema := "";
     IndexSchema.table_name := table_name;
     IndexSchema.index_name := index_name;
     IndexSchema.index_type := index_type;
     IndexSchema.is_unique := is_unique;
     IndexSchema.index_state := "READ_WRITE" |}.

(** Table [Users] with columns [id], [name], [email], its primary key on
    [id], and a secondary index [ByName] whose rows are stored out of order
    and include a column that is not part of the key. *)
Definition users_db : Database := {|
  COLUMNS := [column "Users" "id" "INT64"; column "Users" "name" "STRING";
              column "Users" "email" "STRING"];
  INDEX_COLUMNS := [index_column "Users" "ByName" "email" (Some 1);
                    index_column "Users" "ByName" "id" None;
                    index_column "Users" "PRIMARY_KEY" "id" (Some 0);
                    index_column "Users" "ByName" "name" (Some 0)];
  INDEXES := [index "Users" "PRIMARY_KEY" "PRIMARY_KEY" true;
              index "Users" "ByName" "INDEX" false;
              index "Users" "Stored" "INDEX" false];
  received := []
|}.


(** A request of the given variant on the given table whose [validate]
    answers [verdict] and whose [ddl] names the table. *)
Definition request (class : UpdateClass) (table : string) (verdict : Outcome unit)
    : SchemaUpdate.t :=
  {| SchemaUpdate.class := class;
     SchemaUpdate.table := table;
     SchemaUpdate.validate := λ _, verdict;
     SchemaUpdate.ddl := λ _, Returns ("DDL " +:+ table) |}.

Definition InvalidSchemaChangeError : Exception := OtherError "InvalidSchemaChangeError".

(** A request whose [validate] answers [verdict] and whose [ddl] answers
    [rendering]. *)
Definition request_rendering (class : UpdateClass) (table : string)
    (verdict : Outcome unit) (rendering : Outcome string) : SchemaUpdate.t :=
  {| SchemaUpdate.class := class;
     SchemaUpdate.table := table;
     SchemaUpdate.validate := λ _, verdict;
     SchemaUpdate.ddl := λ _, rendering |}.

Definition CatalogReadError : Exception := OtherError "CatalogReadError".
Definition SubmissionError : Exception := OtherError "SubmissionError".

(** A database one of whose services is out of order: the fetch of that
    relation, or the admin API, raises instead of answering. *)
Inductive Outage := ColumnsDown | IndexColumnsDown | IndexesDown | AdminDown.

#[global] Instance Outage_eq_dec : EqDecision Outage.
Proof. solve_decision. Defined.

Record Site := {
  outage : Outage;
  database : Database
}.

#[global] Instance failing_collaborators : Collaborators nat Site := {|
  ColumnSchema_where _ conditions site :=
    (if decide (outage site = ColumnsDown) then Raises CatalogReadError
     else Returns (reference_where ColumnSchema.field conditions
                     (COLUMNS (database site))),
     site);
  IndexColumnSchema_where _ conditions site :=
    (if decide (outage site = IndexColumnsDown) then Raises CatalogReadError
     else Returns (reference_where IndexColumnSchema.field conditions
                     (INDEX_COLUMNS (database site))),
     site);
  IndexSchema_where _ conditions site :=
    (if decide (outage site = IndexesDown) then Raises CatalogReadError
     else Returns (reference_where IndexSchema.field conditions
                     (INDEXES (database site))),
     site);
  DatabaseAdminApi_update_schema text site :=
    (if decide (outage site = AdminDown) then Raises SubmissionError
     else Returns (),
     site)
|}.

Definition start_site (o : Outage) (db : Database) : State nat Site :=
  {| world := {| outage := o; database := db |}; calls := [] |}.

(** A fetch that ignores the request: it hands back the relation as it is
    stored, whatever the filters and the ordering asked for. *)
#[global] Instance careless_collaborators : Collaborators bool Database := {|
  ColumnSchema_where _ _ db := (Returns (COLUMNS db), db);
  IndexColumnSchema_where _ _ db := (Returns (INDEX_COLUMNS db), db);
  IndexSchema_where _ _ db := (Returns (INDEXES db), db);
  DatabaseAdminApi_update_schema _ db := (Returns (), db)
|}.

Definition start_careless (db : Database) : State bool Database :=
  {| world := db; calls := [] |}.

(** Tables [Users] and [Orders], each with its primary key. *)
Definition shop_db : Database := {|
  COLUMNS := [column "Users" "id" "INT64"; column "Orders" "id" "INT64";
              column "Orders" "user" "INT64"];
  INDEX_COLUMNS := [index_column "Orders" "PRIMARY_KEY" "id" (Some 0);
                    index_column "Users" "PRIMARY_KEY" "id" (Some 0)];
  INDEXES := [index "Users" "PRIMARY_KEY" "PRIMARY_KEY" true;
              index "Orders" "PRIMARY_KEY" "PRIMARY_KEY" true];
  received := []
|}.

(** The same catalog with the COLUMNS and INDEXES relations stored in the
    opposite order. *)
Definition shop_db_reordered : Database := {|
  COLUMNS := reverse (COLUMNS shop_db);
  INDEX_COLUMNS := INDEX_COLUMNS shop_db;
  INDEXES := reverse (INDEXES shop_db);
  received := []
|}.

(** Table [Users] with its primary key beside table [Logs] without index. *)
Definition mixed_db : Database := {|
  COLUMNS := [column "Users" "id" "INT64"; column "Logs" "line" "STRING"];
  INDEX_COLUMNS := [index_column "Users" "PRIMARY_KEY" "id" (Some 0)];
  INDEXES := [index "Users" "PRIMARY_KEY" "PRIMARY_KEY" true];
  received := []
|}.

Definition RenderError : Exception := OtherError "RenderError".

(** A table name that starts with the character of code 0. *)
Definition nul_table : string := String Ascii.zero "T".

(** A table with such a name and its primary key, stored before a table
    [Logs] without index. *)
Definition nul_db : Database := {|
  COLUMNS := [column nul_table "id" "INT64"; column "Logs" "line" "STRING"];
  INDEX_COLUMNS := [index_column nul_table "PRIMARY_KEY" "id" (Some 0)];
  INDEXES := [index nul_table "PRIMARY_KEY" "PRIMARY_KEY" true];
  received := []
|}.


(** The calls of an entry point after its catalog reads, when nothing
    fails: validation, rendering, submission. *)
Definition change_calls {Transaction} (table : string) (model : option Model.t)
    (text : string) : list (Event Transaction) :=
  [Validated table model; Rendered table model; Submitted text].

(** ** Vocabulary of the statements *)

(** The rows of INDEX_COLUMNS that take part in the key of one index: in the
    default namespace, of that table and index, with a position. *)
Definition key_column (table_name index_name : string) (row : IndexColumnSchema.t) : Prop :=
  IndexColumnSchema.table_catalog row = "" ∧
  IndexColumnSchema.table_schema row = "" ∧
  IndexColumnSchema.table_name row = table_name ∧
  IndexColumnSchema.index_name row = index_name ∧
  is_Some (IndexColumnSchema.ordinal_position row).

#[global] Instance key_column_dec table_name index_name row :
  Decision (key_column table_name index_name row).
Proof. unfold key_column. apply _. Defined.

(** Ascending position; a row without position sorts first. *)
Definition by_position (a b : IndexColumnSchema.t) : Prop :=
  match IndexColumnSchema.ordinal_position a, IndexColumnSchema.ordinal_position b with
  | Some p, Some q => p ≤ q
  | None, _ => True
  | Some _, None => False
  end.

#[global] Instance by_position_dec a b : Decision (by_position a b).
Proof.
  unfold by_position.
  destruct (IndexColumnSchema.ordinal_position a), (IndexColumnSchema.ordinal_position b);
    apply _.
Defined.

(** The three catalog reads of one [models] call, in program order. *)
Definition catalog_reads {Transaction} (transaction : option Transaction)
    : list (Event Transaction) :=
  [Fetched ColumnSchemaRows transaction DatabaseMetadata.namespace_conditions;
   Fetched IndexColumnSchemaRows transaction DatabaseMetadata.index_column_conditions;
   Fetched IndexSchemaRows transaction DatabaseMetadata.namespace_conditions].

(** The calls an entry point may add to [before]: catalog reads without
    transaction handle, in program order, then, only once all three reads
    are made, a validation, a rendering and a submission in this order, the
    run stopping anywhere. *)
Definition follows_protocol {Transaction} (table : string)
    (before after : list (Event Transaction)) : Prop :=
  ∃ reads rest model text,
    after = before ++ reads ++ rest ∧
    reads `prefix_of` catalog_reads None ∧
    rest `prefix_of` change_calls table model text ∧
    (rest ≠ [] → reads = catalog_reads None).

(** The class one iteration of the loop of [models] builds for a table. *)
Definition model_class (table : string) (schema : gmap string string)
    (primary_key : Index.t) : Model.t :=
  {| Model.name := "Model_" +:+ table;
     Model.primary_index_keys := DatabaseMetadata.make_method (Index.columns primary_key);
     Model.schema := DatabaseMetadata.make_classmethod schema;
     Model.table := DatabaseMetadata.make_classmethod table |}.

(** The exception the iteration for a table raises, if any: the failed
    'PRIMARY_KEY' subscript, or else the class name refused by [type]. *)
Definition class_failure (indexes : gmap string (gmap string Index.t))
    (table : string) : option Exception :=
  match indexes !! table ≫= (.!! "PRIMARY_KEY") with
  | None => Some (KeyError "PRIMARY_KEY")
  | Some _ =>
      if contains_null table
      then Some (ValueError "type name must not contain null characters")
      else None
  end.

(** A dictionary is well formed: its keys are listed once each, and they
    are the keys its subscripts find. *)
Definition well_formed {V} (d : Dict V) : Prop :=
  NoDup (keys d) ∧ ∀ k, k ∈ keys d ↔ is_Some (d !! k).

(** * Properties *)

(** ** Folding rows into a two-level dictionary *)

Section NestedFold.
Context {Row V : Type} (k1 k2 : Row → string) (v : Row → V).
Context (step : gmap string (gmap string V) → Row → gmap string (gmap string V)).
Hypothesis step_eq : ∀ acc row,
  step acc row = <[k1 row := <[k2 row := v row]> (getitem_default ∅ acc (k1 row))]> acc.

Lemma nested_step_lookup acc row a b :
  step acc row !! a ≫= (.!! b) =
    if decide (k1 row = a ∧ k2 row = b) then Some (v row) else acc !! a ≫= (.!! b).
Proof.
  rewrite step_eq. unfold getitem_default.
  destruct (decide (k1 row = a)) as [<-|Hne].
  - rewrite lookup_insert_eq. simpl.
    destruct (decide (k2 row = b)) as [<-|Hne2].
    + rewrite lookup_insert_eq. by rewrite decide_True.
    + rewrite lookup_insert_ne by done. rewrite decide_False by naive_solver.
      by destruct (acc !! k1 row).
  - rewrite lookup_insert_ne by done. by rewrite decide_False by naive_solver.
Qed.

(** After the loop, the entry under [(a, b)] comes from the last row
    carrying these two keys. *)
Lemma nested_fold_lookup rows a b :
  foldl step ∅ rows !! a ≫= (.!! b) =
    v <$> last (filter (λ row, k1 row = a ∧ k2 row = b) rows).
Proof.
  induction rows as [|row rows IH] using rev_ind; [done|].
  rewrite foldl_snoc, nested_step_lookup, filter_app, filter_cons, filter_nil.
  case_decide.
  - by rewrite last_snoc.
  - by rewrite app_nil_r.
Qed.

Lemma nested_step_outer acc row a :
  is_Some (step acc row !! a) ↔ k1 row = a ∨ is_Some (acc !! a).
Proof.
  rewrite step_eq. destruct (decide (k1 row = a)) as [<-|Hne].
  - rewrite lookup_insert_eq. naive_solver.
  - rewrite lookup_insert_ne by done. naive_solver.
Qed.

(** The outer keys are the first keys of the rows. *)
Lemma nested_fold_outer rows a :
  is_Some (foldl step ∅ rows !! a) ↔ ∃ row, row ∈ rows ∧ k1 row = a.
Proof.
  induction rows as [|row rows IH] using rev_ind.
  - simpl. rewrite lookup_empty. split; [by intros []|].
    intros (row & Hin & _). by apply elem_of_nil in Hin.
  - rewrite foldl_snoc, nested_step_outer, IH. setoid_rewrite elem_of_app.
    setoid_rewrite list_elem_of_singleton. naive_solver.
Qed.
End NestedFold.

(** ** The append loop of [_indexes] *)

Lemma index_columns_step_lookup acc (row : IndexColumnSchema.t) key :
  getitem_default [] (DatabaseMetadata.index_columns_step acc row) key =
    if decide ((IndexColumnSchema.table_name row, IndexColumnSchema.index_name row) = key)
    then getitem_default [] acc key ++ [IndexColumnSchema.column_name row]
    else getitem_default [] acc key.
Proof.
  unfold DatabaseMetadata.index_columns_step, getitem_default.
  case_decide as Hkey.
  - subst key. by rewrite lookup_insert_eq.
  - by rewrite lookup_insert_ne.
Qed.

(** The list under a key holds the columns of the rows carrying that key,
    in the order the rows were fetched. *)
Lemma index_columns_fold_lookup (rows : list IndexColumnSchema.t) table_name index_name :
  getitem_default [] (foldl DatabaseMetadata.index_columns_step ∅ rows)
      (table_name, index_name) =
    IndexColumnSchema.column_name <$>
      filter (λ row, IndexColumnSchema.table_name row = table_name ∧
                     IndexColumnSchema.index_name row = index_name) rows.
Proof.
  induction rows as [|row rows IH] using rev_ind; [done|].
  rewrite foldl_snoc, index_columns_step_lookup, IH, filter_app, filter_cons, filter_nil.
  rewrite fmap_app. repeat case_decide; simplify_eq; try naive_solver.
  by rewrite app_nil_r.
Qed.

(** ** The dictionary [tables] *)

Lemma tables_fold_content (rows : list ColumnSchema.t) (d : Dict (gmap string string)) :
  content (foldl DatabaseMetadata.tables_setitem d rows) =
    foldl DatabaseMetadata.tables_step (content d) rows.
Proof.
  induction rows as [|row rows IH] using rev_ind; [done|].
  by rewrite !foldl_snoc, <- IH.
Qed.

Lemma tables_fold_lookup (rows : list ColumnSchema.t) table :
  foldl DatabaseMetadata.tables_setitem ∅ rows !! table =
    foldl DatabaseMetadata.tables_step ∅ rows !! table.
Proof. unfold lookup at 1, Dict_lookup. by rewrite tables_fold_content. Qed.

Lemma elem_of_inserted k k' ks : k' ∈ inserted k ks ↔ k' = k ∨ k' ∈ ks.
Proof.
  unfold inserted. case_decide.
  - naive_solver.
  - rewrite elem_of_app, list_elem_of_singleton. naive_solver.
Qed.

Lemma NoDup_inserted k ks : NoDup ks → NoDup (inserted k ks).
Proof.
  intros Hnodup. unfold inserted. case_decide; [done|].
  apply NoDup_app. split; [done|]. split; [|apply NoDup_singleton].
  intros x Hx ->%list_elem_of_singleton. done.
Qed.

(** The keys [_tables] lists are the tables it has an entry for, once each. *)
Lemma tables_fold_well_formed (rows : list ColumnSchema.t) :
  well_formed (foldl DatabaseMetadata.tables_setitem ∅ rows).
Proof.
  induction rows as [|row rows [Hnodup Hkeys]] using rev_ind.
  - split; [constructor|]. intros k. unfold lookup, Dict_lookup. simpl.
    rewrite elem_of_nil, lookup_empty. split; [done|by intros []].
  - rewrite foldl_snoc. split.
    + by apply NoDup_inserted.
    + intros k. unfold lookup, Dict_lookup in *. simpl.
      rewrite elem_of_inserted, Hkeys.
      rewrite (nested_step_outer ColumnSchema.table_name ColumnSchema.column_name
                 ColumnSchema.type DatabaseMetadata.tables_step (λ _ _, eq_refl)).
      naive_solver.
Qed.

Section Items.
Context {V : Type} (d : Dict V).
Hypothesis wf : well_formed d.

Lemma items_keys : (items d).*1 = keys d.
Proof.
  destruct wf as [_ Hkeys]. unfold items.
  assert (∀ k, k ∈ keys d → is_Some (content d !! k)) as Hsome
    by (intros k Hk; by apply Hkeys).
  clear Hkeys wf. induction (keys d) as [|k ks IH]; [done|]. simpl.
  destruct (Hsome k) as [v ->]; [left|]. simpl. f_equal.
  apply IH. intros k' Hk'. apply Hsome. by right.
Qed.

Lemma NoDup_items : NoDup (items d).*1.
Proof. rewrite items_keys. apply wf. Qed.

Lemma elem_of_items k v : (k, v) ∈ items d ↔ d !! k = Some v.
Proof.
  unfold items. rewrite list_elem_of_omap. split.
  - intros (k' & _ & Hv). destruct (content d !! k') as [v'|] eqn:Hk'; simplify_eq/=.
    done.
  - intros Hv. exists k. split; [apply wf; by rewrite Hv|].
    unfold lookup, Dict_lookup in Hv. by rewrite Hv.
Qed.
End Items.

(** ** The fetch request of [_indexes] *)

Lemma value_compare_antisym x y : value_compare y x = CompOpp (value_compare x y).
Proof.
  destruct x as [|a|a|a], y as [|b|b|b]; simpl; try done.
  - by destruct a, b.
  - apply Z.compare_antisym.
  - apply String.compare_antisym.
Qed.

#[global] Instance precedes_total {Row} (field : Row → string → Value) os :
  Total (precedes field os).
Proof.
  intros a b. induction os as [|[column order] os' IH]; simpl; [by left|].
  destruct order.
  - rewrite (value_compare_antisym (field a column) (field b column)).
    destruct (value_compare (field a column) (field b column)); simpl; tauto.
  - rewrite (value_compare_antisym (field b column) (field a column)).
    destruct (value_compare (field b column) (field a column)); simpl; tauto.
Qed.

(** The reference fetch honours every request on every relation. *)
Lemma reference_where_honors {Row} (field : Row → string → Value) conditions relation :
  honors field relation conditions (reference_where field conditions relation).
Proof.
  split.
  - apply merge_sort_Permutation.
  - apply (Sorted_merge_sort _).
Qed.

Lemma matches_index_column_conditions (row : IndexColumnSchema.t) :
  matches IndexColumnSchema.field DatabaseMetadata.index_column_conditions row ↔
    IndexColumnSchema.table_catalog row = "" ∧
    IndexColumnSchema.table_schema row = "" ∧
    is_Some (IndexColumnSchema.ordinal_position row).
Proof.
  unfold matches, DatabaseMetadata.index_column_conditions.
  rewrite !Forall_cons, Forall_nil. simpl.
  destruct (IndexColumnSchema.ordinal_position row) as [p|].
  - split; [intros (?&?&?&?); simplify_eq; eauto|].
    intros (->&->&_). done.
  - split; [intros (_&_&?&_); done|]. intros (_&_&[? ?]). done.
Qed.

Lemma precedes_by_position (a b : IndexColumnSchema.t) :
  precedes IndexColumnSchema.field
    (orderings DatabaseMetadata.index_column_conditions) a b ↔ by_position a b.
Proof.
  unfold by_position. simpl.
  destruct (IndexColumnSchema.ordinal_position a) as [p|],
           (IndexColumnSchema.ordinal_position b) as [q|]; simpl; try tauto.
  unfold Z.le. destruct (p ?= q); naive_solver.
Qed.

#[global] Instance by_position_trans : Transitive by_position.
Proof.
  intros a b c. unfold by_position.
  destruct (IndexColumnSchema.ordinal_position a),
           (IndexColumnSchema.ordinal_position b),
           (IndexColumnSchema.ordinal_position c); try done.
  lia.
Qed.

#[global] Instance by_position_total : Total by_position.
Proof.
  intros a b. unfold by_position.
  destruct (IndexColumnSchema.ordinal_position a),
           (IndexColumnSchema.ordinal_position b); try tauto.
  lia.
Qed.

Lemma Sorted_iff {A} (R1 R2 : relation A) l :
  (∀ a b, R1 a b ↔ R2 a b) → Sorted R1 l → Sorted R2 l.
Proof.
  intros HR. induction 1 as [|a l _ IH Hhd]; constructor; [done|].
  destruct Hhd; constructor. by apply HR.
Qed.

Lemma StronglySorted_filter {A} (R : relation A) (P : A → Prop)
    `{∀ x, Decision (P x)} l :
  StronglySorted R l → StronglySorted R (filter P l).
Proof.
  induction 1 as [|a l _ IH Hall]; [constructor|].
  rewrite filter_cons. case_decide; [|done].
  constructor; [done|].
  rewrite Forall_forall in Hall |- *.
  intros x [_ Hx]%list_elem_of_filter. by apply Hall.
Qed.

Lemma NoDup_fmap_elem_eq {A B} (f : A → B) l x y :
  NoDup (f <$> l) → x ∈ l → y ∈ l → f x = f y → x = y.
Proof.
  intros Hnd [i Hi]%list_elem_of_lookup [j Hj]%list_elem_of_lookup Hxy.
  assert (i = j) as ->.
  { eapply NoDup_lookup; [done| |].
    - rewrite list_lookup_fmap, Hi. done.
    - rewrite list_lookup_fmap, Hj. simpl. by rewrite Hxy. }
  congruence.
Qed.

Section HonoredIndexColumns.
Context (relation rows : list IndexColumnSchema.t).
Hypothesis honored :
  honors IndexColumnSchema.field relation DatabaseMetadata.index_column_conditions rows.
Context (table_name index_name : string).

Let fetched_for_key : list IndexColumnSchema.t :=
  filter (λ row, IndexColumnSchema.table_name row = table_name ∧
                 IndexColumnSchema.index_name row = index_name) rows.

(** The fetched rows of one index are the key columns of that index. *)
Lemma fetched_for_key_Permutation :
  fetched_for_key ≡ₚ filter (key_column table_name index_name) relation.
Proof.
  destruct honored as [Hperm _]. unfold fetched_for_key.
  rewrite Hperm, list_filter_filter.
  apply reflexive_eq, list_filter_iff. intros row.
  rewrite matches_index_column_conditions. unfold key_column. tauto.
Qed.

(** They come in ascending position. *)
Lemma fetched_for_key_sorted : StronglySorted by_position fetched_for_key.
Proof.
  destruct honored as [_ Hsorted].
  apply StronglySorted_filter, Sorted_StronglySorted; [apply _|].
  eapply Sorted_iff; [|done]. apply precedes_by_position.
Qed.

(** With distinct positions there is only one such arrangement. *)
Lemma fetched_for_key_unique :
  NoDup (IndexColumnSchema.ordinal_position <$>
           filter (key_column table_name index_name) relation) →
  fetched_for_key =
    merge_sort by_position (filter (key_column table_name index_name) relation).
Proof.
  intros Hnd.
  apply (StronglySorted_unique_strong by_position).
  - intros x1 x2 Hx1 Hx2 H12 H21.
    rewrite merge_sort_Permutation, <- fetched_for_key_Permutation in Hx2.
    rewrite <- fetched_for_key_Permutation in Hnd.
    apply (NoDup_fmap_elem_eq _ _ _ _ Hnd Hx1 Hx2).
    unfold by_position in *.
    destruct (IndexColumnSchema.ordinal_position x1),
             (IndexColumnSchema.ordinal_position x2); try done.
    f_equal. lia.
  - apply fetched_for_key_sorted.
  - apply StronglySorted_merge_sort; apply _.
  - by rewrite merge_sort_Permutation, fetched_for_key_Permutation.
Qed.
End HonoredIndexColumns.

(** ** Running the code against its collaborators *)

Section Runs.
Context {Transaction World : Type} `{!Collaborators Transaction World}.
Implicit Types (s : State Transaction World) (transaction : option Transaction).
Import DatabaseMetadata.

Lemma bind_run {A B} (m : M Transaction World A) (f : A → M Transaction World B) s :
  (m ≫= f) s =
    match m s with
    | (Returns a, s') => f a s'
    | (Raises e, s') => (Raises e, s')
    end.
Proof. reflexivity. Qed.

Lemma call_run {A} e (f : World → Outcome A * World) s r w :
  f (world s) = (r, w) → call e f s = (r, recorded e w s).
Proof. unfold call. by intros ->. Qed.

Lemma _tables_run transaction s rows w :
  ColumnSchema_where transaction namespace_conditions (world s) = (Returns rows, w) →
  _tables transaction s =
    (Returns (foldl tables_setitem ∅ rows),
     recorded (Fetched ColumnSchemaRows transaction namespace_conditions) w s).
Proof.
  intros Hfetch. unfold _tables, where_ColumnSchema.
  by rewrite bind_run, (call_run _ _ _ _ _ Hfetch).
Qed.

Lemma _indexes_run transaction s rows w index_rows w' :
  IndexColumnSchema_where transaction index_column_conditions (world s)
    = (Returns rows, w) →
  IndexSchema_where transaction namespace_conditions w = (Returns index_rows, w') →
  _indexes transaction s =
    (Returns (foldl (indexes_step (foldl index_columns_step ∅ rows)) ∅ index_rows),
     recorded (Fetched IndexSchemaRows transaction namespace_conditions) w'
       (recorded (Fetched IndexColumnSchemaRows transaction index_column_conditions)
          w s)).
Proof.
  intros Hcolumns Hindexes. unfold _indexes, where_IndexColumnSchema, where_IndexSchema.
  rewrite bind_run, (call_run _ _ _ _ _ Hcolumns). cbv beta iota zeta.
  by rewrite bind_run, (call_run _ _ (recorded _ w s) _ _ Hindexes).
Qed.

Lemma models_run transaction s tables s1 indexes s2 :
  _tables transaction s = (Returns tables, s1) →
  _indexes transaction s1 = (Returns indexes, s2) →
  models transaction s = (models_for indexes (items tables) ∅, s2).
Proof.
  intros Htables Hindexes. unfold models.
  by rewrite bind_run, Htables, bind_run, Hindexes.
Qed.

(** Whatever the collaborators answer, [models] performs catalog reads
    only, in program order, until one of them fails. *)
Lemma models_calls transaction s :
  ∃ reads, calls (models transaction s).2 = calls s ++ reads ∧
           reads `prefix_of` catalog_reads transaction.
Proof.
  unfold models, _tables, _indexes, where_ColumnSchema, where_IndexColumnSchema,
    where_IndexSchema, catalog_reads.
  rewrite !bind_run. unfold call at 1.
  destruct (ColumnSchema_where _ _ _) as [[rows|e] w1]; simpl.
  2:{ eexists [_]. split; [done|]. by eexists. }
  rewrite !bind_run. unfold call at 1. simpl.
  destruct (IndexColumnSchema_where _ _ _) as [[columns|e] w2]; simpl.
  2:{ eexists [_; _]. rewrite <- app_assoc. split; [done|]. by eexists. }
  rewrite !bind_run. unfold call at 1. simpl.
  destruct (IndexSchema_where _ _ _) as [[index_rows|e] w3]; simpl.
  2:{ eexists [_; _; _]. rewrite <- !app_assoc. split; [done|]. by eexists []. }
  eexists [_; _; _]. rewrite <- !app_assoc. split; [done|]. by eexists [].
Qed.

Lemma catalog_reads_only transaction (reads : list (Event Transaction)) :
  reads `prefix_of` catalog_reads transaction →
  submissions reads = [] ∧ renderings reads = [].
Proof.
  intros [rest Hrest].
  assert (submissions (reads ++ rest) = [] ∧ renderings (reads ++ rest) = [])
    as [Hs Hr] by (by rewrite <- Hrest).
  unfold submissions, renderings in *. rewrite omap_app in Hs, Hr.
  by apply app_eq_nil in Hs as [-> _], Hr as [-> _].
Qed.

(** [models] renders and submits nothing. *)
Lemma models_quiet transaction s :
  submissions (calls (models transaction s).2) = submissions (calls s) ∧
  renderings (calls (models transaction s).2) = renderings (calls s).
Proof.
  destruct (models_calls transaction s) as (reads & -> & Hprefix).
  apply catalog_reads_only in Hprefix as [Hs Hr].
  unfold submissions, renderings in *. rewrite !omap_app, Hs, Hr, !app_nil_r. done.
Qed.
End Runs.

(** ** The catalog reads *)

Section CatalogReader.
Context {Transaction World : Type} `{!Collaborators Transaction World}.
Implicit Types (s : State Transaction World) (transaction : option Transaction).
Import DatabaseMetadata.

(** C8: whatever rows the filtered ColumnSchema fetch returns, [_tables]
    returns the two-level map in which the entry under (table, column) is
    the type of the last fetched row for that pair (a later row overwrites
    an earlier one); hence every row's column is present under its own
    table, an entry under a table always stems from a row of that very
    table, and the tables of the map are the tables of the rows. *)
Theorem tables_groups_columns_by_table transaction s rows w :
  ColumnSchema_where transaction namespace_conditions (world s) = (Returns rows, w) →
  ∃ tables,
    _tables transaction s =
      (Returns tables,
       recorded (Fetched ColumnSchemaRows transaction namespace_conditions) w s) ∧
    (∀ table column,
       tables !! table ≫= (.!! column) =
         ColumnSchema.type <$>
           last (filter (λ row, ColumnSchema.table_name row = table ∧
                                ColumnSchema.column_name row = column) rows)) ∧
    (∀ row, row ∈ rows →
       is_Some (tables !! ColumnSchema.table_name row
                  ≫= (.!! ColumnSchema.column_name row))) ∧
    (∀ table column type,
       tables !! table ≫= (.!! column) = Some type →
       ∃ row, row ∈ rows ∧ ColumnSchema.table_name row = table ∧
              ColumnSchema.column_name row = column ∧
              ColumnSchema.type row = type) ∧
    (∀ table, is_Some (tables !! table) ↔
              ∃ row, row ∈ rows ∧ ColumnSchema.table_name row = table).
Proof.
  intros Hfetch. eexists. split; [by apply _tables_run|].
  assert (∀ table column,
    foldl tables_setitem ∅ rows !! table ≫= (.!! column) =
      ColumnSchema.type <$>
        last (filter (λ row, ColumnSchema.table_name row = table ∧
                             ColumnSchema.column_name row = column) rows)) as Hlookup.
  { intros. rewrite tables_fold_lookup. by apply nested_fold_lookup. }
  split; [done|]. split; [|split].
  - intros row Hrow. rewrite Hlookup. apply fmap_is_Some, last_is_Some.
    intros Hnil. by apply (filter_nil_not_elem_of _ _ row) in Hnil.
  - intros table column type. rewrite Hlookup. intros Hlast.
    apply fmap_Some in Hlast as (row & Hlast & ->).
    apply last_Some_elem_of, list_elem_of_filter in Hlast as [[? ?] ?]. eauto.
  - intros table. rewrite tables_fold_lookup.
    by apply (nested_fold_outer ColumnSchema.table_name ColumnSchema.column_name
                ColumnSchema.type).
Qed.

Lemma indexes_fold_lookup index_columns (index_rows : list IndexSchema.t) table index_name :
  foldl (indexes_step index_columns) ∅ index_rows !! table ≫= (.!! index_name) =
    (λ schema,
       {| Index.columns := getitem_default [] index_columns (table, index_name);
          Index.type := IndexSchema.index_type schema;
          Index.unique := IndexSchema.is_unique schema;
          Index.state := IndexSchema.index_state schema |}) <$>
      last (filter (λ schema, IndexSchema.table_name schema = table ∧
                              IndexSchema.index_name schema = index_name) index_rows).
Proof.
  rewrite (nested_fold_lookup IndexSchema.table_name IndexSchema.index_name
    (λ schema,
       {| Index.columns :=
            getitem_default [] index_columns
              (IndexSchema.table_name schema, IndexSchema.index_name schema);
          Index.type := IndexSchema.index_type schema;
          Index.unique := IndexSchema.is_unique schema;
          Index.state := IndexSchema.index_state schema |})) by done.
  destruct (last _) as [schema|] eqn:Hlast; [|done].
  apply last_Some_elem_of, list_elem_of_filter in Hlast as [[<- <-] _]. done.
Qed.

(** C1: when the IndexColumnSchema fetch honours its request on the
    relation it reads, then for every (table, index) the reconstructed
    column sequence is the list of column names of a sequence of rows that
    is a rearrangement of exactly the default-namespace rows of that table
    and index whose position is present (so none without position), laid
    out in ascending position; with pairwise distinct positions this is
    the one sorted arrangement of those rows.  The list the append loop
    builds is this sequence, and what [_indexes] returns under that table
    and index is fixed: an entry exactly when an IndexSchema row of that
    table and index was fetched, with this sequence as its [columns] and
    the other fields of the last such row. *)
Theorem indexes_columns_in_position_order transaction s relation rows w :
  IndexColumnSchema_where transaction index_column_conditions (world s)
    = (Returns rows, w) →
  honors IndexColumnSchema.field relation index_column_conditions rows →
  ∀ table index_name,
    ∃ sequence,
      sequence ≡ₚ filter (key_column table index_name) relation ∧
      Forall (λ row, is_Some (IndexColumnSchema.ordinal_position row)) sequence ∧
      StronglySorted by_position sequence ∧
      (NoDup (IndexColumnSchema.ordinal_position <$>
                filter (key_column table index_name) relation) →
       sequence = merge_sort by_position (filter (key_column table index_name) relation)) ∧
      getitem_default [] (foldl index_columns_step ∅ rows) (table, index_name) =
        IndexColumnSchema.column_name <$> sequence ∧
      ∀ index_rows w',
        IndexSchema_where transaction namespace_conditions w = (Returns index_rows, w') →
        ∃ indexes s',
          _indexes transaction s = (Returns indexes, s') ∧
          indexes !! table ≫= (.!! index_name) =
            (λ schema,
               {| Index.columns := IndexColumnSchema.column_name <$> sequence;
                  Index.type := IndexSchema.index_type schema;
                  Index.unique := IndexSchema.is_unique schema;
                  Index.state := IndexSchema.index_state schema |}) <$>
              last (filter (λ schema, IndexSchema.table_name schema = table ∧
                                      IndexSchema.index_name schema = index_name)
                           index_rows) ∧
          (∀ schema,
             schema ∈ index_rows →
             IndexSchema.table_name schema = table →
             IndexSchema.index_name schema = index_name →
             ∃ entry, indexes !! table ≫= (.!! index_name) = Some entry ∧
                      Index.columns entry =
                        IndexColumnSchema.column_name <$> sequence) ∧
          ∀ entry, indexes !! table ≫= (.!! index_name) = Some entry →
                   Index.columns entry = IndexColumnSchema.column_name <$> sequence.
Proof.
  intros Hfetch Hhonors table index_name.
  exists (filter (λ row, IndexColumnSchema.table_name row = table ∧
                         IndexColumnSchema.index_name row = index_name) rows).
  pose proof (fetched_for_key_Permutation _ _ Hhonors table index_name) as Hperm.
  split; [done|]. split; [|split; [|split; [|split]]].
  - rewrite Hperm. apply Forall_forall.
    intros row [Hkey _]%list_elem_of_filter. apply Hkey.
  - by eapply fetched_for_key_sorted.
  - by eapply fetched_for_key_unique.
  - apply index_columns_fold_lookup.
  - intros index_rows w' Hindexes. eexists _, _.
    split; [by eapply _indexes_run|].
    assert (foldl (indexes_step (foldl index_columns_step ∅ rows)) ∅ index_rows
              !! table ≫= (.!! index_name) =
            (λ schema,
               {| Index.columns :=
                    IndexColumnSchema.column_name <$>
                      filter (λ row, IndexColumnSchema.table_name row = table ∧
                                     IndexColumnSchema.index_name row = index_name) rows;
                  Index.type := IndexSchema.index_type schema;
                  Index.unique := IndexSchema.is_unique schema;
                  Index.state := IndexSchema.index_state schema |}) <$>
              last (filter (λ schema, IndexSchema.table_name schema = table ∧
                                      IndexSchema.index_name schema = index_name)
                           index_rows)) as Hentry.
    { rewrite indexes_fold_lookup. by rewrite index_columns_fold_lookup. }
    split; [exact Hentry|]. split.
    + intros schema Hschema Htable Hindex. rewrite Hentry.
      destruct (last _) as [schema'|] eqn:Hlast; [by eexists|].
      apply last_None in Hlast.
      exfalso.
      exact (filter_nil_not_elem_of _ index_rows schema Hlast (conj Htable Hindex) Hschema).
    + intros entry. rewrite Hentry. intros Hsome.
      by apply fmap_Some in Hsome as (schema & _ & ->).
Qed.

(** C9: when no default-namespace IndexColumnSchema row with a present
    position exists for the table and index of an IndexSchema row, the
    entry [_indexes] returns for that index has the empty column sequence
    and the type, uniqueness and state of that row (the row being the one
    that decides the entry, that is, no later fetched row names the same
    table and index). *)
Theorem indexes_without_key_columns transaction s relation rows w index_rows w' :
  IndexColumnSchema_where transaction index_column_conditions (world s)
    = (Returns rows, w) →
  honors IndexColumnSchema.field relation index_column_conditions rows →
  IndexSchema_where transaction namespace_conditions w = (Returns index_rows, w') →
  ∃ indexes s',
    _indexes transaction s = (Returns indexes, s') ∧
    ∀ before schema after,
      index_rows = before ++ schema :: after →
      Forall (λ later, ¬ (IndexSchema.table_name later = IndexSchema.table_name schema ∧
                          IndexSchema.index_name later = IndexSchema.index_name schema))
             after →
      filter (key_column (IndexSchema.table_name schema) (IndexSchema.index_name schema))
             relation = [] →
      indexes !! IndexSchema.table_name schema ≫= (.!! IndexSchema.index_name schema) =
        Some {| Index.columns := [];
                Index.type := IndexSchema.index_type schema;
                Index.unique := IndexSchema.is_unique schema;
                Index.state := IndexSchema.index_state schema |}.
Proof.
  intros Hfetch Hhonors Hindexes. eexists _, _.
  split; [by eapply _indexes_run|].
  intros before schema after -> Hafter Hnone.
  rewrite indexes_fold_lookup, index_columns_fold_lookup.
  pose proof (fetched_for_key_Permutation _ _ Hhonors
                (IndexSchema.table_name schema) (IndexSchema.index_name schema)) as Hperm.
  rewrite Hnone in Hperm. apply Permutation_nil_r in Hperm. rewrite Hperm.
  rewrite filter_app, filter_cons_True by done.
  assert (filter (λ later, IndexSchema.table_name later = IndexSchema.table_name schema ∧
                           IndexSchema.index_name later = IndexSchema.index_name schema)
                 after = []) as ->.
  { clear -Hafter. induction Hafter as [|later after Hlater _ IH]; [done|].
    by rewrite filter_cons_False. }
  by rewrite last_snoc.
Qed.
End CatalogReader.

(** ** Model synthesis *)

Lemma primary_key_lookup (indexes : gmap string (gmap string Index.t)) table :
  getitem_default ∅ indexes table !! "PRIMARY_KEY" =
    indexes !! table ≫= (.!! "PRIMARY_KEY").
Proof. unfold getitem_default. by destruct (indexes !! table). Qed.

Lemma contains_null_class_name table :
  contains_null ("Model_" +:+ table) = contains_null table.
Proof. reflexivity. Qed.

(** One iteration of the loop of [models]. *)
Lemma models_step_cases (indexes : gmap string (gmap string Index.t))
    table schema results :
  DatabaseMetadata.models_step indexes table schema results =
    match class_failure indexes table with
    | Some e => Raises e
    | None =>
        match indexes !! table ≫= (.!! "PRIMARY_KEY") with
        | Some primary_key =>
            Returns (<[table := model_class table schema primary_key]> results)
        | None => Raises (KeyError "PRIMARY_KEY")
        end
    end.
Proof.
  unfold DatabaseMetadata.models_step, class_failure, getitem.
  rewrite primary_key_lookup.
  destruct (indexes !! table ≫= (.!! "PRIMARY_KEY")) as [primary_key|]; [|done].
  simpl. unfold type_. rewrite contains_null_class_name.
  by destruct (contains_null table).
Qed.

Lemma class_failure_None indexes table :
  class_failure indexes table = None ↔
    is_Some (indexes !! table ≫= (.!! "PRIMARY_KEY")) ∧ contains_null table = false.
Proof.
  unfold class_failure.
  destruct (indexes !! table ≫= (.!! "PRIMARY_KEY")) as [primary_key|].
  - destruct (contains_null table); naive_solver.
  - split; [done|]. by intros [[? ?] _].
Qed.


(** What the loop leaves behind.  On success no iteration failed and
    [results] gained, under each table of [items], the class of that table,
    the other entries being as before; a failure is the failure of the first
    table, in the order of [items], whose iteration fails. *)
Lemma models_for_spec (indexes : gmap string (gmap string Index.t))
    (items : list (string * gmap string string)) (results : gmap string Model.t) :
  NoDup items.*1 →
  match DatabaseMetadata.models_for indexes items results with
  | Returns results' =>
      Forall (λ item, class_failure indexes item.1 = None) items ∧
      ∀ table,
        match (list_to_map items : gmap string (gmap string string)) !! table with
        | Some schema =>
            ∃ primary_key,
              indexes !! table ≫= (.!! "PRIMARY_KEY") = Some primary_key ∧
              results' !! table = Some (model_class table schema primary_key)
        | None => results' !! table = results !! table
        end
  | Raises e =>
      ∃ before item after,
        items = before ++ item :: after ∧
        Forall (λ item, class_failure indexes item.1 = None) before ∧
        class_failure indexes item.1 = Some e
  end.
Proof.
  revert results. induction items as [|[table0 schema0] items IH]; intros results Hnodup.
  { simpl. split; [constructor|]. intros table. by rewrite lookup_empty. }
  apply NoDup_cons in Hnodup as [Hfresh Hnodup]. simpl.
  rewrite models_step_cases.
  destruct (class_failure indexes table0) as [e|] eqn:Hfailure; simpl.
  { exists [], (table0, schema0), items. by repeat split. }
  pose proof (proj1 (class_failure_None _ _) Hfailure) as [[primary_key Hkey] _].
  rewrite Hkey. simpl.
  specialize (IH (<[table0 := model_class table0 schema0 primary_key]> results) Hnodup).
  destruct (DatabaseMetadata.models_for indexes items _) as [results'|e].
  - destruct IH as [Hall Hresults]. split; [by constructor|].
    intros table. specialize (Hresults table).
    destruct (decide (table0 = table)) as [<-|Hne].
    + rewrite lookup_insert_eq.
      rewrite (not_elem_of_list_to_map_1 items table0 Hfresh) in Hresults.
      rewrite lookup_insert_eq in Hresults. eauto.
    + rewrite lookup_insert_ne by done.
      destruct (list_to_map items !! table); [done|].
      by rewrite lookup_insert_ne in Hresults.
  - destruct IH as (before & item & after & -> & Hbefore & Hitem).
    exists ((table0, schema0) :: before), item, after. by repeat split; [constructor|..].
Qed.

Lemma list_to_map_items {V} (d : Dict V) :
  well_formed d → list_to_map (items d) = content d.
Proof.
  intros wf. apply map_eq. intros k. apply option_eq. intros v.
  rewrite <- elem_of_list_to_map by by apply NoDup_items.
  by rewrite elem_of_items.
Qed.

(** The same for the loop of [models] over the dictionary [tables]. *)
Lemma models_loop_spec (tables : Dict (gmap string string))
    (indexes : gmap string (gmap string Index.t)) :
  well_formed tables →
  match DatabaseMetadata.models_for indexes (items tables) ∅ with
  | Returns results =>
      ∀ table,
        match tables !! table with
        | Some schema =>
            ∃ klass primary_key,
              results !! table = Some klass ∧
              indexes !! table ≫= (.!! "PRIMARY_KEY") = Some primary_key ∧
              Model.name klass = "Model_" +:+ table ∧
              Model.primary_index_keys klass () = Index.columns primary_key ∧
              Model.schema klass () = schema ∧
              Model.table klass () = table ∧
              contains_null table = false
        | None => results !! table = None
        end
  | Raises e =>
      ∃ before table schema after,
        items tables = before ++ (table, schema) :: after ∧
        Forall (λ item, class_failure indexes item.1 = None) before ∧
        tables !! table = Some schema ∧
        class_failure indexes table = Some e
  end.
Proof.
  intros wf. pose proof (models_for_spec indexes (items tables) ∅ (NoDup_items _ wf))
    as Hspec.
  destruct (DatabaseMetadata.models_for indexes (items tables) ∅) as [results|e].
  - destruct Hspec as [Hall Hresults]. intros table. specialize (Hresults table).
    rewrite (list_to_map_items _ wf) in Hresults.
    change (tables !! table) with (content tables !! table).
    destruct (content tables !! table) as [schema|] eqn:Hschema; [|done].
    destruct Hresults as (primary_key & Hkey & Hklass).
    eexists _, _. split; [exact Hklass|]. split; [exact Hkey|].
    do 4 (split; [reflexivity|]).
    rewrite Forall_forall in Hall.
    apply (class_failure_None indexes table), (Hall (table, schema)).
    by apply elem_of_items.
  - destruct Hspec as (before & [table schema] & after & Hitems & Hbefore & Hitem).
    exists before, table, schema, after. repeat split; [done..| |done].
    apply (elem_of_items _ wf). rewrite Hitems, elem_of_app. right. left.
Qed.

Lemma _tables_well_formed {Transaction World} `{!Collaborators Transaction World}
    (transaction : option Transaction) (s : State Transaction World) tables s1 :
  DatabaseMetadata._tables transaction s = (Returns tables, s1) → well_formed tables.
Proof.
  unfold DatabaseMetadata._tables, DatabaseMetadata.where_ColumnSchema.
  rewrite bind_run. unfold call.
  destruct (ColumnSchema_where _ _ _) as [[rows|e] w]; simpl; [|done].
  intros [= <- _]. apply tables_fold_well_formed.
Qed.

Section ModelSynthesizer.
Context {Transaction World : Type} `{!Collaborators Transaction World}.
Implicit Types (s : State Transaction World) (transaction : option Transaction).
Import DatabaseMetadata.




(** C10: for every handle, present or not, the calls [models] adds are
    catalog reads carrying that very handle: a prefix of the ColumnSchema,
    IndexColumnSchema and IndexSchema reads in this order, and all three
    of them when each read answers. *)
Theorem models_forwards_transaction transaction s :
  ∃ reads,
    calls (models transaction s).2 = calls s ++ reads ∧
    reads `prefix_of` catalog_reads transaction ∧
    Forall (λ e, ∃ relation conditions, e = Fetched relation transaction conditions)
           reads ∧
    ∀ rows w1 columns w2 index_rows w3,
      ColumnSchema_where transaction namespace_conditions (world s) = (Returns rows, w1) →
      IndexColumnSchema_where transaction index_column_conditions w1
        = (Returns columns, w2) →
      IndexSchema_where transaction namespace_conditions w2 = (Returns index_rows, w3) →
      reads = catalog_reads transaction.
Proof.
  destruct (models_calls transaction s) as (reads & Hcalls & Hprefix).
  exists reads. split; [done|]. split; [done|]. split.
  - destruct Hprefix as [rest Hrest]. unfold catalog_reads in Hrest.
    destruct reads as [|e1 [|e2 [|e3 [|e4 reads]]]]; simplify_eq/=;
      repeat constructor; eauto.
  - intros rows w1 columns w2 index_rows w3 Hrows Hcolumns Hindex_rows.
    pose proof (_tables_run _ _ _ _ Hrows) as Htables.
    pose proof (_indexes_run transaction
      (recorded (Fetched ColumnSchemaRows transaction namespace_conditions) w1 s)
      _ _ _ _ Hcolumns Hindex_rows) as Hindexes.
    rewrite (models_run _ _ _ _ _ _ Htables Hindexes) in Hcalls.
    simpl in Hcalls. rewrite <- !app_assoc in Hcalls.
    by apply app_inv_head in Hcalls.
Qed.
End ModelSynthesizer.

(** ** Schema changes *)

Section SchemaChangeApplier.
Context {Transaction World : Type} `{!Collaborators Transaction World}.
Implicit Types (s : State Transaction World) (schema_change : SchemaUpdate.t).
Import DatabaseMetadata.

Lemma assert_passes (b : bool) {A} (k : M Transaction World A) s :
  b = true → (assert b;; k) s = k s.
Proof. by intros ->. Qed.

Lemma assert_fails (b : bool) {A} (k : M Transaction World A) s :
  b = false → (assert b;; k) s = (Raises AssertionError, s).
Proof. by intros ->. Qed.

Lemma isinstance_true schema_change c :
  SchemaUpdate.class schema_change = c → isinstance schema_change c = true.
Proof. intros. by apply bool_decide_eq_true_2. Qed.

Lemma isinstance_false schema_change c :
  SchemaUpdate.class schema_change ≠ c → isinstance schema_change c = false.
Proof. intros. by apply bool_decide_eq_false_2. Qed.

(** No rendering and no submission between two states. *)
Lemma quiet_after_models s s1 :
  (∃ transaction, (models transaction s).2 = s1) →
  submissions (calls s1) = submissions (calls s) ∧
  renderings (calls s1) = renderings (calls s).
Proof. intros [transaction <-]. apply models_quiet. Qed.

(** C4: when the model map just fetched lacks the table of a ColumnUpdate
    request, [column_update] fails with the [KeyError] of that table name
    (the failure the specification names UnknownTableError), in the state
    [models] left, so nothing was submitted to the admin API; likewise
    [index_update] for an IndexUpdate request. *)
Theorem update_of_unknown_table schema_change s all_models s1 :
  models None s = (Returns all_models, s1) →
  all_models !! SchemaUpdate.table schema_change = None →
  submissions (calls s1) = submissions (calls s) ∧
  (SchemaUpdate.class schema_change = ColumnUpdate →
   column_update schema_change s
     = (Raises (KeyError (SchemaUpdate.table schema_change)), s1)) ∧
  (SchemaUpdate.class schema_change = IndexUpdate →
   index_update schema_change s
     = (Raises (KeyError (SchemaUpdate.table schema_change)), s1)).
Proof.
  intros Hmodels Habsent. split; [|split].
  - apply quiet_after_models. exists None. by rewrite Hmodels.
  - intros Hclass. unfold column_update.
    rewrite assert_passes by by apply isinstance_true.
    rewrite bind_run, Hmodels, bind_run. unfold lift, getitem. by rewrite Habsent.
  - intros Hclass. unfold index_update.
    rewrite assert_passes by by apply isinstance_true.
    rewrite bind_run, Hmodels, bind_run. unfold lift, getitem. by rewrite Habsent.
Qed.

(** C5: when the model map just fetched already has the table of a
    CreateTableUpdate request, [create_table] fails its assertion (the
    failure the specification names TableAlreadyExistsError), in the state
    [models] left, so nothing was submitted to the admin API. *)
Theorem create_of_existing_table schema_change s all_models s1 :
  SchemaUpdate.class schema_change = CreateTableUpdate →
  models None s = (Returns all_models, s1) →
  is_Some (all_models !! SchemaUpdate.table schema_change) →
  create_table schema_change s = (Raises AssertionError, s1) ∧
  submissions (calls s1) = submissions (calls s).
Proof.
  intros Hclass Hmodels Hpresent. split.
  - unfold create_table.
    rewrite assert_passes by by apply isinstance_true.
    rewrite bind_run, Hmodels. apply assert_fails, bool_decide_eq_false_2.
    intros Hnot. by apply Hnot, elem_of_dom.
  - apply quiet_after_models. exists None. by rewrite Hmodels.
Qed.

(** C6: a request of another variant than the one an entry point expects
    fails its first assertion (the failure the specification names
    SchemaChangeTypeMismatchError) and leaves the state as it was: no
    catalog read, no validation, no rendering and no submission has
    happened. *)
Theorem variant_mismatch schema_change s :
  (SchemaUpdate.class schema_change ≠ ColumnUpdate →
   column_update schema_change s = (Raises AssertionError, s)) ∧
  (SchemaUpdate.class schema_change ≠ CreateTableUpdate →
   create_table schema_change s = (Raises AssertionError, s)) ∧
  (SchemaUpdate.class schema_change ≠ IndexUpdate →
   index_update schema_change s = (Raises AssertionError, s)).
Proof.
  repeat split; intros Hclass.
  - by apply assert_fails, isinstance_false.
  - by apply assert_fails, isinstance_false.
  - by apply assert_fails, isinstance_false.
Qed.

(** C7: when the [validate] call of a request raises, each entry point
    raises the same exception right after recording that call; compared
    with the state before the entry point ran, no DDL was rendered and
    nothing was submitted to the admin API. *)
Theorem failed_validation_emits_nothing schema_change s all_models s1 e :
  models None s = (Returns all_models, s1) →
  (∀ model,
     SchemaUpdate.class schema_change = ColumnUpdate →
     all_models !! SchemaUpdate.table schema_change = Some model →
     SchemaUpdate.validate schema_change (Some model) = Raises e →
     ∃ s', column_update schema_change s = (Raises e, s') ∧
           calls s' = calls s1 ++
             [Validated (SchemaUpdate.table schema_change) (Some model)] ∧
           renderings (calls s') = renderings (calls s) ∧
           submissions (calls s') = submissions (calls s)) ∧
  (SchemaUpdate.class schema_change = CreateTableUpdate →
   all_models !! SchemaUpdate.table schema_change = None →
   SchemaUpdate.validate schema_change None = Raises e →
   ∃ s', create_table schema_change s = (Raises e, s') ∧
         calls s' = calls s1 ++ [Validated (SchemaUpdate.table schema_change) None] ∧
         renderings (calls s') = renderings (calls s) ∧
         submissions (calls s') = submissions (calls s)) ∧
  (∀ model,
     SchemaUpdate.class schema_change = IndexUpdate →
     all_models !! SchemaUpdate.table schema_change = Some model →
     SchemaUpdate.validate schema_change (Some model) = Raises e →
     ∃ s', index_update schema_change s = (Raises e, s') ∧
           calls s' = calls s1 ++
             [Validated (SchemaUpdate.table schema_change) (Some model)] ∧
           renderings (calls s') = renderings (calls s) ∧
           submissions (calls s') = submissions (calls s)).
Proof.
  intros Hmodels.
  assert (submissions (calls s1) = submissions (calls s) ∧
          renderings (calls s1) = renderings (calls s)) as [Hs Hr].
  { apply quiet_after_models. exists None. by rewrite Hmodels. }
  assert (∀ model,
    renderings (calls s1 ++ [Validated (SchemaUpdate.table schema_change) model])
      = renderings (calls s) ∧
    submissions (calls s1 ++ [Validated (SchemaUpdate.table schema_change) model])
      = submissions (calls s)) as Hquiet.
  { intros model. unfold renderings, submissions in *.
    rewrite !omap_app, Hs, Hr. simpl. by rewrite !app_nil_r. }
  split; [|split].
  - intros model Hclass Hmodel Hvalidate. eexists. split.
    + unfold column_update.
      rewrite assert_passes by by apply isinstance_true.
      rewrite bind_run, Hmodels, bind_run. unfold lift at 1, getitem.
      rewrite Hmodel. rewrite bind_run. unfold validate, call.
      by rewrite Hvalidate.
    + split; [done|]. apply Hquiet.
  - intros Hclass Habsent Hvalidate. eexists. split.
    + unfold create_table.
      rewrite assert_passes by by apply isinstance_true.
      rewrite bind_run, Hmodels.
      rewrite assert_passes
        by (apply bool_decide_eq_true_2; by rewrite not_elem_of_dom).
      rewrite bind_run. unfold validate, call. by rewrite Hvalidate.
    + split; [done|]. apply Hquiet.
  - intros model Hclass Hmodel Hvalidate. eexists. split.
    + unfold index_update.
      rewrite assert_passes by by apply isinstance_true.
      rewrite bind_run, Hmodels, bind_run. unfold lift at 1, getitem.
      rewrite Hmodel. rewrite bind_run. unfold validate, call.
      by rewrite Hvalidate.
    + split; [done|]. apply Hquiet.
Qed.
End SchemaChangeApplier.

(** ** The code at work on the sample databases *)

Example users_models_primary_key :
  (match DatabaseMetadata.models None (start users_db) with
   | (Returns results, _) =>
       (λ klass, Model.primary_index_keys klass ()) <$> results !! "Users"
   | _ => None
   end) = Some ["id"].
Proof. vm_compute. reflexivity. Qed.

Example users_by_name_columns :
  (match DatabaseMetadata._indexes None (start users_db) with
   | (Returns indexes, _) => Index.columns <$> indexes !! "Users" ≫= (.!! "ByName")
   | _ => None
   end) = Some ["name"; "email"].
Proof. vm_compute. reflexivity. Qed.

Example column_update_submits :
  let '(outcome, s) :=
    DatabaseMetadata.column_update (request ColumnUpdate "Users" (Returns ()))
      (start users_db) in
  outcome = Returns () ∧ received (world s) = ["DDL Users"] ∧
  submissions (calls s) = ["DDL Users"].
Proof. vm_compute. done. Qed.

Example create_table_submits :
  let '(outcome, s) :=
    DatabaseMetadata.create_table (request CreateTableUpdate "Orders" (Returns ()))
      (start users_db) in
  outcome = Returns () ∧ received (world s) = ["DDL Orders"].
Proof. vm_compute. done. Qed.

Example column_update_on_orders :
  let '(outcome, s) :=
    DatabaseMetadata.column_update (request ColumnUpdate "Orders" (Returns ()))
      (start users_db) in
  outcome = Raises (KeyError "Orders") ∧ received (world s) = [].
Proof. vm_compute. done. Qed.

(** The exception of the loop depends on the order of [tables.items()]:
    with a table whose name holds a NUL and a table without index, the
    table that comes first decides. *)
Example models_for_order_decides_exception :
  let tables := returned ∅ (DatabaseMetadata._tables None (start nul_db)).1 in
  let indexes := returned ∅ (DatabaseMetadata._indexes None (start nul_db)).1 in
  keys tables = [nul_table; "Logs"] ∧
  DatabaseMetadata.models_for indexes (items tables) ∅
    = Raises (ValueError "type name must not contain null characters") ∧
  DatabaseMetadata.models_for indexes (reverse (items tables)) ∅
    = Raises (KeyError "PRIMARY_KEY").
Proof. vm_compute. done. Qed.

(** ** Instances of the claims *)

Lemma tables_groups_columns_by_table_witness :
  ColumnSchema_where (Some 7%nat) DatabaseMetadata.namespace_conditions users_db
    = (Returns (reference_where ColumnSchema.field
                  DatabaseMetadata.namespace_conditions (COLUMNS users_db)),
       users_db) ∧
  ∃ tables,
    (DatabaseMetadata._tables (Some 7%nat) (start users_db)).1 = Returns tables ∧
    tables !! "Users" ≫= (.!! "name") = Some "STRING".
Proof.
  assert (ColumnSchema_where (Some 7%nat) DatabaseMetadata.namespace_conditions
            (world (start users_db))
          = (Returns (reference_where ColumnSchema.field
                        DatabaseMetadata.namespace_conditions (COLUMNS users_db)),
             users_db)) as Hfetch by reflexivity.
  split; [exact Hfetch|].
  destruct (tables_groups_columns_by_table _ _ _ _ Hfetch)
    as (tables & Hrun & Hlookup & _).
  exists tables. split.
  - rewrite Hrun. reflexivity.
  - rewrite Hlookup. vm_compute. reflexivity.
Defined.

Lemma indexes_columns_in_position_order_witness :
  honors IndexColumnSchema.field (INDEX_COLUMNS users_db)
    DatabaseMetadata.index_column_conditions
    (reference_where IndexColumnSchema.field
       DatabaseMetadata.index_column_conditions (INDEX_COLUMNS users_db)) ∧
  ∃ sequence indexes entry,
    sequence ≡ₚ filter (key_column "Users" "ByName") (INDEX_COLUMNS users_db) ∧
    StronglySorted by_position sequence ∧
    IndexColumnSchema.column_name <$> sequence = ["name"; "email"] ∧
    (DatabaseMetadata._indexes (Some 7%nat) (start users_db)).1 = Returns indexes ∧
    indexes !! "Users" ≫= (.!! "ByName") = Some entry ∧
    Index.columns entry = ["name"; "email"].
Proof.
  assert (IndexColumnSchema_where (Some 7%nat) DatabaseMetadata.index_column_conditions
            (world (start users_db))
          = (Returns (reference_where IndexColumnSchema.field
                        DatabaseMetadata.index_column_conditions
                        (INDEX_COLUMNS users_db)),
             users_db)) as Hfetch by reflexivity.
  assert (IndexSchema_where (Some 7%nat) DatabaseMetadata.namespace_conditions users_db
          = (Returns (reference_where IndexSchema.field
                        DatabaseMetadata.namespace_conditions (INDEXES users_db)),
             users_db)) as Hindexes by reflexivity.
  split; [apply reference_where_honors|].
  destruct (indexes_columns_in_position_order _ _ _ _ _ Hfetch
              (reference_where_honors _ _ _) "Users" "ByName")
    as (sequence & Hperm & _ & Hsorted & _ & Hcolumns & Hread).
  destruct (Hread _ _ Hindexes) as (indexes & s' & Hrun & _ & Hexists & _).
  destruct (Hexists (index "Users" "ByName" "INDEX" false))
    as (entry & Hentry & Hentry_columns).
  { vm_compute. do 2 right. left. }
  { reflexivity. }
  { reflexivity. }
  assert (IndexColumnSchema.column_name <$> sequence = ["name"; "email"]) as Hnames.
  { rewrite <- Hcolumns. vm_compute. reflexivity. }
  exists sequence, indexes, entry.
  split; [exact Hperm|]. split; [exact Hsorted|]. split; [exact Hnames|].
  split; [rewrite Hrun; reflexivity|]. split; [exact Hentry|].
  rewrite Hentry_columns. exact Hnames.
Defined.

Lemma indexes_without_key_columns_witness :
  filter (key_column "Users" "Stored") (INDEX_COLUMNS users_db) = [] ∧
  ∃ indexes,
    (DatabaseMetadata._indexes (Some 7%nat) (start users_db)).1 = Returns indexes ∧
    indexes !! "Users" ≫= (.!! "Stored") =
      Some {| Index.columns := []; Index.type := "INDEX"; Index.unique := false;
              Index.state := "READ_WRITE" |}.
Proof.
  assert (IndexColumnSchema_where (Some 7%nat) DatabaseMetadata.index_column_conditions
            (world (start users_db))
          = (Returns (reference_where IndexColumnSchema.field
                        DatabaseMetadata.index_column_conditions
                        (INDEX_COLUMNS users_db)),
             users_db)) as Hfetch by reflexivity.
  assert (IndexSchema_where (Some 7%nat) DatabaseMetadata.namespace_conditions users_db
          = (Returns (reference_where IndexSchema.field
                        DatabaseMetadata.namespace_conditions (INDEXES users_db)),
             users_db)) as Hindexes by reflexivity.
  split; [vm_compute; reflexivity|].
  destruct (indexes_without_key_columns _ _ _ _ _ _ _ Hfetch
              (reference_where_honors _ _ _) Hindexes)
    as (indexes & s' & Hrun & Hentry).
  exists indexes. split; [rewrite Hrun; reflexivity|].
  apply (Hentry [] (index "Users" "Stored" "INDEX" false)
           [index "Users" "PRIMARY_KEY" "PRIMARY_KEY" true;
            index "Users" "ByName" "INDEX" false]).
  - vm_compute. reflexivity.
  - repeat constructor; intros [_ Hname]; vm_compute in Hname; discriminate.
  - vm_compute. reflexivity.
Defined.





Lemma models_forwards_transaction_witness :
  calls (DatabaseMetadata.models (Some 7%nat) (start users_db)).2
    = catalog_reads (Some 7%nat) ∧
  calls (DatabaseMetadata.models None (start users_db)).2 = catalog_reads None.
Proof.
  split.
  - destruct (models_forwards_transaction (Some 7%nat) (start users_db))
      as (reads & Hcalls & _ & _ & Hall).
    rewrite Hcalls. simpl. eapply Hall; reflexivity.
  - destruct (models_forwards_transaction None (start users_db))
      as (reads & Hcalls & _ & _ & Hall).
    rewrite Hcalls. simpl. eapply Hall; reflexivity.
Defined.

Lemma update_of_unknown_table_witness :
  DatabaseMetadata.column_update (request ColumnUpdate "Orders" (Returns ()))
      (start users_db)
    = (Raises (KeyError "Orders"), (DatabaseMetadata.models None (start users_db)).2) ∧
  DatabaseMetadata.index_update (request IndexUpdate "Orders" (Returns ()))
      (start users_db)
    = (Raises (KeyError "Orders"), (DatabaseMetadata.models None (start users_db)).2) ∧
  submissions (calls (DatabaseMetadata.models None (start users_db)).2) = [].
Proof.
  pose (all_models := returned ∅ (DatabaseMetadata.models None (start users_db)).1).
  pose (s1 := (DatabaseMetadata.models None (start users_db)).2).
  assert (DatabaseMetadata.models None (start users_db) = (Returns all_models, s1))
    as Hmodels by (vm_compute; reflexivity).
  assert (all_models !! "Orders" = None) as Habsent by (vm_compute; reflexivity).
  destruct (update_of_unknown_table (request ColumnUpdate "Orders" (Returns ()))
              (start users_db) all_models s1 Hmodels Habsent) as (Hquiet & Hcolumn & _).
  destruct (update_of_unknown_table (request IndexUpdate "Orders" (Returns ()))
              (start users_db) all_models s1 Hmodels Habsent) as (_ & _ & Hindex).
  split; [exact (Hcolumn eq_refl)|]. split; [exact (Hindex eq_refl)|]. exact Hquiet.
Defined.

Lemma create_of_existing_table_witness :
  DatabaseMetadata.create_table (request CreateTableUpdate "Users" (Returns ()))
      (start users_db)
    = (Raises AssertionError, (DatabaseMetadata.models None (start users_db)).2) ∧
  submissions (calls (DatabaseMetadata.models None (start users_db)).2) = [].
Proof.
  pose (all_models := returned ∅ (DatabaseMetadata.models None (start users_db)).1).
  pose (s1 := (DatabaseMetadata.models None (start users_db)).2).
  apply (create_of_existing_table (request CreateTableUpdate "Users" (Returns ()))
           (start users_db) all_models s1).
  - reflexivity.
  - vm_compute. reflexivity.
  - eexists. vm_compute. reflexivity.
Defined.

Lemma variant_mismatch_witness :
  DatabaseMetadata.column_update (request IndexUpdate "Users" (Returns ()))
      (start users_db) = (Raises AssertionError, start users_db) ∧
  DatabaseMetadata.create_table (request ColumnUpdate "Users" (Returns ()))
      (start users_db) = (Raises AssertionError, start users_db) ∧
  DatabaseMetadata.index_update (request CreateTableUpdate "Users" (Returns ()))
      (start users_db) = (Raises AssertionError, start users_db).
Proof.
  split; [|split].
  - apply (variant_mismatch (request IndexUpdate "Users" (Returns ()))). discriminate.
  - apply (variant_mismatch (request ColumnUpdate "Users" (Returns ()))). discriminate.
  - apply (variant_mismatch (request CreateTableUpdate "Users" (Returns ()))).
    discriminate.
Defined.

Lemma failed_validation_emits_nothing_witness :
  (∃ s', DatabaseMetadata.column_update
           (request ColumnUpdate "Users" (Raises InvalidSchemaChangeError))
           (start users_db) = (Raises InvalidSchemaChangeError, s') ∧
         renderings (calls s') = [] ∧ submissions (calls s') = []) ∧
  (∃ s', DatabaseMetadata.create_table
           (request CreateTableUpdate "Orders" (Raises InvalidSchemaChangeError))
           (start users_db) = (Raises InvalidSchemaChangeError, s') ∧
         renderings (calls s') = [] ∧ submissions (calls s') = []) ∧
  (∃ s', DatabaseMetadata.index_update
           (request IndexUpdate "Users" (Raises InvalidSchemaChangeError))
           (start users_db) = (Raises InvalidSchemaChangeError, s') ∧
         renderings (calls s') = [] ∧ submissions (calls s') = []).
Proof.
  pose (all_models := returned ∅ (DatabaseMetadata.models None (start users_db)).1).
  pose (s1 := (DatabaseMetadata.models None (start users_db)).2).
  assert (DatabaseMetadata.models None (start users_db) = (Returns all_models, s1))
    as Hmodels by (vm_compute; reflexivity).
  destruct (all_models !! "Users") as [model|] eqn:Hmodel;
    [|vm_compute in Hmodel; discriminate].
  split; [|split].
  - destruct (failed_validation_emits_nothing
                (request ColumnUpdate "Users" (Raises InvalidSchemaChangeError))
                (start users_db) all_models s1 InvalidSchemaChangeError Hmodels)
      as (Hcolumn & _ & _).
    destruct (Hcolumn model eq_refl Hmodel eq_refl) as (s' & Hrun & _ & Hr & Hs).
    exists s'. split; [exact Hrun|]. split; [exact Hr|exact Hs].
  - destruct (failed_validation_emits_nothing
                (request CreateTableUpdate "Orders" (Raises InvalidSchemaChangeError))
                (start users_db) all_models s1 InvalidSchemaChangeError Hmodels)
      as (_ & Hcreate & _).
    destruct Hcreate as (s' & Hrun & _ & Hr & Hs);
      [reflexivity|vm_compute; reflexivity|reflexivity|].
    exists s'. split; [exact Hrun|]. split; [exact Hr|exact Hs].
  - destruct (failed_validation_emits_nothing
                (request IndexUpdate "Users" (Raises InvalidSchemaChangeError))
                (start users_db) all_models s1 InvalidSchemaChangeError Hmodels)
      as (_ & _ & Hindex).
    destruct (Hindex model eq_refl Hmodel eq_refl) as (s' & Hrun & _ & Hr & Hs).
    exists s'. split; [exact Hrun|]. split; [exact Hr|exact Hs].
Defined.

(** * Further properties *)

(** ** Every path through [models] and the entry points *)

Section Paths.
Context {Transaction World : Type} `{!Collaborators Transaction World}.
Implicit Types (s : State Transaction World) (transaction : option Transaction).
Implicit Types (schema_change : SchemaUpdate.t).
Import DatabaseMetadata.

(** The outcome and final state of [models], by the answers of the three
    fetches. *)
Lemma models_cases transaction s :
  match ColumnSchema_where transaction namespace_conditions (world s) with
  | (Raises e, w1) =>
      models transaction s =
        (Raises e, recorded (Fetched ColumnSchemaRows transaction namespace_conditions)
                     w1 s)
  | (Returns rows, w1) =>
      let s1 := recorded (Fetched ColumnSchemaRows transaction namespace_conditions)
                  w1 s in
      match IndexColumnSchema_where transaction index_column_conditions w1 with
      | (Raises e, w2) =>
          models transaction s =
            (Raises e,
             recorded (Fetched IndexColumnSchemaRows transaction index_column_conditions)
               w2 s1)
      | (Returns columns, w2) =>
          let s2 :=
            recorded (Fetched IndexColumnSchemaRows transaction index_column_conditions)
              w2 s1 in
          match IndexSchema_where transaction namespace_conditions w2 with
          | (Raises e, w3) =>
              models transaction s =
                (Raises e,
                 recorded (Fetched IndexSchemaRows transaction namespace_conditions)
                   w3 s2)
          | (Returns index_rows, w3) =>
              models transaction s =
                (models_for
                   (foldl (indexes_step (foldl index_columns_step ∅ columns)) ∅
                      index_rows)
                   (items (foldl tables_setitem ∅ rows)) ∅,
                 recorded (Fetched IndexSchemaRows transaction namespace_conditions)
                   w3 s2)
          end
      end
  end.
Proof.
  unfold models, _tables, _indexes, where_ColumnSchema, where_IndexColumnSchema,
    where_IndexSchema.
  rewrite !bind_run. unfold call.
  destruct (ColumnSchema_where _ _ _) as [[rows|e] w1]; simpl; [|done].
  rewrite !bind_run. simpl.
  destruct (IndexColumnSchema_where _ _ _) as [[columns|e] w2]; simpl; [|done].
  rewrite !bind_run. simpl.
  by destruct (IndexSchema_where _ _ _) as [[index_rows|e] w3].
Qed.

(** When [models] returns, or fails in its loop, all three reads were made. *)
Lemma models_returns_calls transaction s all_models s1 :
  models transaction s = (Returns all_models, s1) →
  calls s1 = calls s ++ catalog_reads transaction.
Proof.
  intros Hmodels. pose proof (models_cases transaction s) as Hcases.
  destruct (ColumnSchema_where _ _ _) as [[rows|e] w1]; [|congruence].
  destruct (IndexColumnSchema_where _ _ _) as [[columns|e] w2]; [|congruence].
  destruct (IndexSchema_where _ _ _) as [[index_rows|e] w3]; [|congruence].
  rewrite Hmodels in Hcases. injection Hcases as _ ->. simpl.
  by rewrite <- !app_assoc.
Qed.

(** The part [column_update] and [index_update] share after their first
    assertion, by the answers it gets. *)
Lemma update_cases schema_change s :
  let table := SchemaUpdate.table schema_change in
  let body : M Transaction World unit :=
    all_models ← models None;
    model ← lift (getitem all_models table);
    validate schema_change (Some model);;
    text ← ddl schema_change (Some model);
    update_schema text in
  match models None s with
  | (Raises e, s1) => body s = (Raises e, s1)
  | (Returns all_models, s1) =>
      match all_models !! table with
      | None => body s = (Raises (KeyError table), s1)
      | Some model =>
          let s2 := recorded (Validated table (Some model)) (world s1) s1 in
          match SchemaUpdate.validate schema_change (Some model) with
          | Raises e => body s = (Raises e, s2)
          | Returns _ =>
              let s3 := recorded (Rendered table (Some model)) (world s1) s2 in
              match SchemaUpdate.ddl schema_change (Some model) with
              | Raises e => body s = (Raises e, s3)
              | Returns text =>
                  body s =
                    (let '(outcome, w) :=
                       DatabaseAdminApi_update_schema text (world s1) in
                     (outcome, recorded (Submitted text) w s3))
              end
          end
      end
  end.
Proof.
  intros table body. unfold body. rewrite bind_run.
  destruct (models None s) as [[all_models|e] s1]; [|done].
  unfold mbind, M_bind, lift, getitem, validate, ddl, update_schema, call. simpl.
  destruct (all_models !! table) as [model|]; simpl; [|done].
  destruct (SchemaUpdate.validate schema_change (Some model)) as [[]|e]; simpl; [|done].
  by destruct (SchemaUpdate.ddl schema_change (Some model)) as [text|e].
Qed.

(** The part of [create_table] after its first assertion. *)
Lemma create_cases schema_change s :
  let table := SchemaUpdate.table schema_change in
  let body : M Transaction World unit :=
    all_models ← models None;
    assert (bool_decide (table ∉ dom all_models));;
    validate schema_change None;;
    text ← ddl schema_change None;
    update_schema text in
  match models None s with
  | (Raises e, s1) => body s = (Raises e, s1)
  | (Returns all_models, s1) =>
      match all_models !! table with
      | Some _ => body s = (Raises AssertionError, s1)
      | None =>
          let s2 := recorded (Validated table None) (world s1) s1 in
          match SchemaUpdate.validate schema_change None with
          | Raises e => body s = (Raises e, s2)
          | Returns _ =>
              let s3 := recorded (Rendered table None) (world s1) s2 in
              match SchemaUpdate.ddl schema_change None with
              | Raises e => body s = (Raises e, s3)
              | Returns text =>
                  body s =
                    (let '(outcome, w) :=
                       DatabaseAdminApi_update_schema text (world s1) in
                     (outcome, recorded (Submitted text) w s3))
              end
          end
      end
  end.
Proof.
  intros table body. unfold body. rewrite bind_run.
  destruct (models None s) as [[all_models|e] s1]; [|done].
  destruct (all_models !! table) as [model|] eqn:Hmodel.
  - apply assert_fails, bool_decide_eq_false_2.
    intros Hnot. apply Hnot, elem_of_dom. by rewrite Hmodel.
  - rewrite assert_passes by (apply bool_decide_eq_true_2; by rewrite not_elem_of_dom).
    unfold mbind, M_bind, validate, ddl, update_schema, call. simpl.
    destruct (SchemaUpdate.validate schema_change None) as [[]|e]; simpl; [|done].
    by destruct (SchemaUpdate.ddl schema_change None) as [text|e].
Qed.

Lemma column_update_body schema_change s :
  SchemaUpdate.class schema_change = ColumnUpdate →
  column_update schema_change s =
    (all_models ← models None;
     model ← lift (getitem all_models (SchemaUpdate.table schema_change));
     validate schema_change (Some model);;
     text ← ddl schema_change (Some model);
     update_schema text) s.
Proof. intros. unfold column_update. by rewrite assert_passes by by apply isinstance_true. Qed.

Lemma index_update_body schema_change s :
  SchemaUpdate.class schema_change = IndexUpdate →
  index_update schema_change s =
    (all_models ← models None;
     model ← lift (getitem all_models (SchemaUpdate.table schema_change));
     validate schema_change (Some model);;
     text ← ddl schema_change (Some model);
     update_schema text) s.
Proof. intros. unfold index_update. by rewrite assert_passes by by apply isinstance_true. Qed.

Lemma create_table_body schema_change s :
  SchemaUpdate.class schema_change = CreateTableUpdate →
  create_table schema_change s =
    (all_models ← models None;
     assert (bool_decide (SchemaUpdate.table schema_change ∉ dom all_models));;
     validate schema_change None;;
     text ← ddl schema_change None;
     update_schema text) s.
Proof. intros. unfold create_table. by rewrite assert_passes by by apply isinstance_true. Qed.
End Paths.

(** ** Schema changes: the paths the claims leave out *)

Section AppliedChanges.
Context {Transaction World : Type} `{!Collaborators Transaction World}.
Implicit Types (s : State Transaction World) (schema_change : SchemaUpdate.t).
Import DatabaseMetadata.

Lemma catalog_read_not_submission transaction (reads : list (Event Transaction)) e :
  reads `prefix_of` catalog_reads transaction → e ∈ reads →
  ∃ relation conditions, e = Fetched relation transaction conditions.
Proof.
  intros Hprefix He. eapply elem_of_prefix in He; [|done].
  unfold catalog_reads in He. rewrite !elem_of_cons, elem_of_nil in He.
  naive_solver.
Qed.

Lemma models_calls_of s outcome s1 :
  models None s = (outcome, s1) →
  ∃ reads, calls s1 = calls s ++ reads ∧
           reads `prefix_of` (catalog_reads None : list (Event Transaction)) ∧
           (∀ all_models, outcome = Returns all_models → reads = catalog_reads None).
Proof.
  intros Hmodels. destruct (models_calls None s) as (reads & Hcalls & Hprefix).
  rewrite Hmodels in Hcalls. simpl in Hcalls.
  exists reads. split; [done|]. split; [done|].
  intros all_models ->. apply models_returns_calls in Hmodels.
  rewrite Hmodels in Hcalls. by apply app_inv_head in Hcalls.
Qed.

(** X1: when the table of the request is in the model map just fetched,
    [validate] accepts and [ddl] renders [text], then [column_update] (for
    a ColumnUpdate) and [index_update] (for an IndexUpdate) hand exactly
    [text] to [update_schema], once, after the three catalog reads, the
    validation and the rendering, all with the fetched model; their outcome
    is the outcome of that submission, failure included. *)
Theorem update_submits_rendered_ddl schema_change s all_models s1 model text outcome w :
  models None s = (Returns all_models, s1) →
  all_models !! SchemaUpdate.table schema_change = Some model →
  SchemaUpdate.validate schema_change (Some model) = Returns () →
  SchemaUpdate.ddl schema_change (Some model) = Returns text →
  DatabaseAdminApi_update_schema text (world s1) = (outcome, w) →
  ∃ s',
    world s' = w ∧
    calls s' = calls s ++ catalog_reads None ++
                 change_calls (SchemaUpdate.table schema_change) (Some model) text ∧
    submissions (calls s') = submissions (calls s) ++ [text] ∧
    (SchemaUpdate.class schema_change = ColumnUpdate →
     column_update schema_change s = (outcome, s')) ∧
    (SchemaUpdate.class schema_change = IndexUpdate →
     index_update schema_change s = (outcome, s')).
Proof.
  intros Hmodels Hmodel Hvalidate Hddl Hsubmit.
  pose proof (update_cases schema_change s) as Hcases. simpl in Hcases.
  rewrite Hmodels, Hmodel, Hvalidate, Hddl, Hsubmit in Hcases.
  eexists. split; [|split; [|split; [|split]]].
  4:{ intros Hclass. rewrite column_update_body by done. exact Hcases. }
  4:{ intros Hclass. rewrite index_update_body by done. exact Hcases. }
  - done.
  - unfold recorded, catalog_reads, change_calls. cbn [calls].
    rewrite (models_returns_calls _ _ _ _ Hmodels).
    unfold catalog_reads. by rewrite <- !app_assoc.
  - simpl. rewrite (models_returns_calls _ _ _ _ Hmodels).
    unfold submissions. rewrite !omap_app. simpl. by rewrite !app_nil_r.
Qed.

(** X2: when the table of a CreateTableUpdate request is not in the model
    map just fetched, [validate] accepts and [ddl] renders [text], both
    called without a model, then [create_table] hands exactly [text] to
    [update_schema], once, and its outcome is the outcome of that
    submission. *)
Theorem create_submits_rendered_ddl schema_change s all_models s1 text outcome w :
  SchemaUpdate.class schema_change = CreateTableUpdate →
  models None s = (Returns all_models, s1) →
  all_models !! SchemaUpdate.table schema_change = None →
  SchemaUpdate.validate schema_change None = Returns () →
  SchemaUpdate.ddl schema_change None = Returns text →
  DatabaseAdminApi_update_schema text (world s1) = (outcome, w) →
  ∃ s',
    create_table schema_change s = (outcome, s') ∧
    world s' = w ∧
    calls s' = calls s ++ catalog_reads None ++
                 change_calls (SchemaUpdate.table schema_change) None text ∧
    submissions (calls s') = submissions (calls s) ++ [text].
Proof.
  intros Hclass Hmodels Habsent Hvalidate Hddl Hsubmit.
  pose proof (create_cases schema_change s) as Hcases. simpl in Hcases.
  rewrite Hmodels, Habsent, Hvalidate, Hddl, Hsubmit in Hcases.
  eexists. split; [|split; [|split]].
  - rewrite create_table_body by done. exact Hcases.
  - done.
  - unfold recorded, catalog_reads, change_calls. cbn [calls].
    rewrite (models_returns_calls _ _ _ _ Hmodels).
    unfold catalog_reads. by rewrite <- !app_assoc.
  - simpl. rewrite (models_returns_calls _ _ _ _ Hmodels).
    unfold submissions. rewrite !omap_app. simpl. by rewrite !app_nil_r.
Qed.

(** X3: when [validate] accepts but [ddl] raises, each entry point raises
    the same exception after the validation and the rendering call, and
    nothing is submitted. *)
Theorem failed_rendering_submits_nothing schema_change s all_models s1 e :
  models None s = (Returns all_models, s1) →
  (∀ model,
     all_models !! SchemaUpdate.table schema_change = Some model →
     SchemaUpdate.validate schema_change (Some model) = Returns () →
     SchemaUpdate.ddl schema_change (Some model) = Raises e →
     ∃ s', calls s' = calls s1 ++
             [Validated (SchemaUpdate.table schema_change) (Some model);
              Rendered (SchemaUpdate.table schema_change) (Some model)] ∧
           submissions (calls s') = submissions (calls s) ∧
           (SchemaUpdate.class schema_change = ColumnUpdate →
            column_update schema_change s = (Raises e, s')) ∧
           (SchemaUpdate.class schema_change = IndexUpdate →
            index_update schema_change s = (Raises e, s'))) ∧
  (SchemaUpdate.class schema_change = CreateTableUpdate →
   all_models !! SchemaUpdate.table schema_change = None →
   SchemaUpdate.validate schema_change None = Returns () →
   SchemaUpdate.ddl schema_change None = Raises e →
   ∃ s', create_table schema_change s = (Raises e, s') ∧
         calls s' = calls s1 ++
           [Validated (SchemaUpdate.table schema_change) None;
            Rendered (SchemaUpdate.table schema_change) None] ∧
         submissions (calls s') = submissions (calls s)).
Proof.
  intros Hmodels.
  assert (submissions (calls s1) = submissions (calls s)) as Hquiet.
  { apply quiet_after_models. exists None. by rewrite Hmodels. }
  split.
  - intros model Hmodel Hvalidate Hddl.
    pose proof (update_cases schema_change s) as Hcases. simpl in Hcases.
    rewrite Hmodels, Hmodel, Hvalidate, Hddl in Hcases.
    eexists. split; [|split; [|split]].
    3:{ intros Hclass. rewrite column_update_body by done. exact Hcases. }
    3:{ intros Hclass. rewrite index_update_body by done. exact Hcases. }
    + simpl. by rewrite <- !app_assoc.
    + simpl. unfold submissions in *. rewrite !omap_app, Hquiet. simpl.
      by rewrite !app_nil_r.
  - intros Hclass Habsent Hvalidate Hddl.
    pose proof (create_cases schema_change s) as Hcases. simpl in Hcases.
    rewrite Hmodels, Habsent, Hvalidate, Hddl in Hcases.
    eexists. split; [|split].
    + rewrite create_table_body by done. exact Hcases.
    + simpl. by rewrite <- !app_assoc.
    + simpl. unfold submissions in *. rewrite !omap_app, Hquiet. simpl.
      by rewrite !app_nil_r.
Qed.

(** X4: when [models] raises, be it a failed catalog read or a table
    without primary key, each entry point called with a request of its own
    variant raises the same exception in the state [models] left: the
    request is neither validated nor rendered nor submitted. *)
Theorem failed_models_stops_change schema_change s e s1 :
  models None s = (Raises e, s1) →
  (∃ reads, calls s1 = calls s ++ reads ∧
            reads `prefix_of` (catalog_reads None : list (Event Transaction))) ∧
  (SchemaUpdate.class schema_change = ColumnUpdate →
   column_update schema_change s = (Raises e, s1)) ∧
  (SchemaUpdate.class schema_change = CreateTableUpdate →
   create_table schema_change s = (Raises e, s1)) ∧
  (SchemaUpdate.class schema_change = IndexUpdate →
   index_update schema_change s = (Raises e, s1)).
Proof.
  intros Hmodels.
  pose proof (update_cases schema_change s) as Hupdate.
  pose proof (create_cases schema_change s) as Hcreate.
  simpl in Hupdate, Hcreate. rewrite Hmodels in Hupdate, Hcreate.
  split; [|split; [|split]].
  - destruct (models_calls_of _ _ _ Hmodels) as (reads & ? & ? & _). eauto.
  - intros Hclass. by rewrite column_update_body.
  - intros Hclass. by rewrite create_table_body.
  - intros Hclass. by rewrite index_update_body.
Qed.


End AppliedChanges.

(** ** Schema changes: what every run obeys *)

Section Discipline.
Context {Transaction World : Type} `{!Collaborators Transaction World}.
Implicit Types (s : State Transaction World) (schema_change : SchemaUpdate.t).
Import DatabaseMetadata.

Lemma follows_protocol_reads table (before : list (Event Transaction)) reads :
  reads `prefix_of` catalog_reads None →
  follows_protocol table before (before ++ reads).
Proof.
  intros Hprefix. exists reads, [], None, "".
  rewrite app_nil_r. repeat split; [done| |done]. by eexists.
Qed.

Lemma follows_protocol_change table (before : list (Event Transaction)) rest model text :
  rest `prefix_of` change_calls table model text →
  follows_protocol table before ((before ++ catalog_reads None) ++ rest).
Proof.
  intros Hprefix. exists (catalog_reads None), rest, model, text.
  rewrite <- app_assoc. by repeat split.
Qed.

Lemma update_body_protocol schema_change s :
  follows_protocol (SchemaUpdate.table schema_change) (calls s)
    (calls ((all_models ← models None;
             model ← lift (getitem all_models (SchemaUpdate.table schema_change));
             validate schema_change (Some model);;
             text ← ddl schema_change (Some model);
             update_schema text) s).2).
Proof.
  pose proof (update_cases schema_change s) as Hcases. simpl in Hcases.
  destruct (models None s) as [[all_models|e] s1] eqn:Hmodels.
  2:{ rewrite Hcases. simpl.
      destruct (models_calls_of _ _ _ Hmodels) as (reads & -> & ? & _).
      by apply follows_protocol_reads. }
  pose proof (models_returns_calls _ _ _ _ Hmodels) as Hcalls.
  destruct (all_models !! SchemaUpdate.table schema_change) as [model|].
  2:{ rewrite Hcases. simpl. rewrite Hcalls. by apply follows_protocol_reads. }
  destruct (SchemaUpdate.validate schema_change (Some model)) as [[]|e].
  2:{ rewrite Hcases. simpl. rewrite Hcalls.
      apply (follows_protocol_change _ _ _ (Some model) ""). by eexists. }
  destruct (SchemaUpdate.ddl schema_change (Some model)) as [text|e].
  2:{ rewrite Hcases. simpl. rewrite Hcalls, <- !app_assoc, (app_assoc (calls s)).
      apply (follows_protocol_change _ _ _ (Some model) ""). by eexists. }
  rewrite Hcases.
  destruct (DatabaseAdminApi_update_schema text (world s1)) as [outcome w].
  simpl. rewrite Hcalls, <- !app_assoc, (app_assoc (calls s)).
  by apply (follows_protocol_change _ _ _ (Some model) text).
Qed.

Lemma create_body_protocol schema_change s :
  follows_protocol (SchemaUpdate.table schema_change) (calls s)
    (calls ((all_models ← models None;
             assert (bool_decide (SchemaUpdate.table schema_change ∉ dom all_models));;
             validate schema_change None;;
             text ← ddl schema_change None;
             update_schema text) s).2).
Proof.
  pose proof (create_cases schema_change s) as Hcases. simpl in Hcases.
  destruct (models None s) as [[all_models|e] s1] eqn:Hmodels.
  2:{ rewrite Hcases. simpl.
      destruct (models_calls_of _ _ _ Hmodels) as (reads & -> & ? & _).
      by apply follows_protocol_reads. }
  pose proof (models_returns_calls _ _ _ _ Hmodels) as Hcalls.
  destruct (all_models !! SchemaUpdate.table schema_change) as [model|].
  { rewrite Hcases. simpl. rewrite Hcalls. by apply follows_protocol_reads. }
  destruct (SchemaUpdate.validate schema_change None) as [[]|e].
  2:{ rewrite Hcases. simpl. rewrite Hcalls.
      apply (follows_protocol_change _ _ _ None ""). by eexists. }
  destruct (SchemaUpdate.ddl schema_change None) as [text|e].
  2:{ rewrite Hcases. simpl. rewrite Hcalls, <- !app_assoc, (app_assoc (calls s)).
      apply (follows_protocol_change _ _ _ None ""). by eexists. }
  rewrite Hcases.
  destruct (DatabaseAdminApi_update_schema text (world s1)) as [outcome w].
  simpl. rewrite Hcalls, <- !app_assoc, (app_assoc (calls s)).
  by apply (follows_protocol_change _ _ _ None text).
Qed.

Lemma rejected_variant (b : bool) {A} (k : M Transaction World A) s table :
  b = false → follows_protocol table (calls s) (calls ((assert b;; k) s).2).
Proof.
  intros ->. simpl. rewrite <- (app_nil_r (calls s)) at 2.
  apply follows_protocol_reads. by eexists.
Qed.

(** X6: whatever the request and whatever the collaborators answer, the
    calls an entry point makes are catalog reads without transaction
    handle, in program order, followed, only when all three reads were
    made, by at most one validation, then at most one rendering, then at
    most one submission. *)
Theorem entry_points_follow_protocol schema_change s :
  follows_protocol (SchemaUpdate.table schema_change) (calls s)
    (calls (column_update schema_change s).2) ∧
  follows_protocol (SchemaUpdate.table schema_change) (calls s)
    (calls (create_table schema_change s).2) ∧
  follows_protocol (SchemaUpdate.table schema_change) (calls s)
    (calls (index_update schema_change s).2).
Proof.
  split; [|split].
  - destruct (decide (SchemaUpdate.class schema_change = ColumnUpdate)) as [Hclass|Hclass].
    + rewrite column_update_body by done. apply update_body_protocol.
    + by apply rejected_variant, isinstance_false.
  - destruct (decide (SchemaUpdate.class schema_change = CreateTableUpdate))
      as [Hclass|Hclass].
    + rewrite create_table_body by done. apply create_body_protocol.
    + by apply rejected_variant, isinstance_false.
  - destruct (decide (SchemaUpdate.class schema_change = IndexUpdate)) as [Hclass|Hclass].
    + rewrite index_update_body by done. apply update_body_protocol.
    + by apply rejected_variant, isinstance_false.
Qed.
End Discipline.

(** ** Schema changes: what a submission presupposes *)

Section Guards.
Context {Transaction World : Type} `{!Collaborators Transaction World}.
Implicit Types (s : State Transaction World) (schema_change : SchemaUpdate.t).
Import DatabaseMetadata.

Lemma update_body_guard schema_change s new text :
  calls ((all_models ← models None;
          model ← lift (getitem all_models (SchemaUpdate.table schema_change));
          validate schema_change (Some model);;
          text ← ddl schema_change (Some model);
          update_schema text) s).2 = calls s ++ new →
  Submitted text ∈ new →
  ∃ all_models s1 model,
    models None s = (Returns all_models, s1) ∧
    all_models !! SchemaUpdate.table schema_change = Some model ∧
    SchemaUpdate.validate schema_change (Some model) = Returns () ∧
    SchemaUpdate.ddl schema_change (Some model) = Returns text ∧
    submissions new = [text].
Proof.
  pose proof (update_cases schema_change s) as Hcases. simpl in Hcases.
  destruct (models None s) as [[all_models|e] s1] eqn:Hmodels.
  2:{ rewrite Hcases. simpl.
      destruct (models_calls_of _ _ _ Hmodels) as (reads & -> & Hprefix & _).
      intros <-%app_inv_head Hin.
      by destruct (catalog_read_not_submission _ _ _ Hprefix Hin) as (? & ? & ?). }
  pose proof (models_returns_calls _ _ _ _ Hmodels) as Hcalls.
  destruct (all_models !! SchemaUpdate.table schema_change) as [model|] eqn:Hmodel.
  2:{ rewrite Hcases. simpl. rewrite Hcalls. intros <-%app_inv_head Hin.
      unfold catalog_reads in Hin. rewrite !elem_of_cons, elem_of_nil in Hin.
      naive_solver. }
  destruct (SchemaUpdate.validate schema_change (Some model)) as [[]|e] eqn:Hvalidate.
  2:{ rewrite Hcases. simpl. rewrite Hcalls, <- !app_assoc.
      intros <-%app_inv_head Hin. unfold catalog_reads in Hin. simpl in Hin.
      rewrite !elem_of_cons, elem_of_nil in Hin. naive_solver. }
  destruct (SchemaUpdate.ddl schema_change (Some model)) as [text'|e] eqn:Hddl.
  2:{ rewrite Hcases. simpl. rewrite Hcalls, <- !app_assoc.
      intros <-%app_inv_head Hin. unfold catalog_reads in Hin. simpl in Hin.
      rewrite !elem_of_cons, elem_of_nil in Hin. naive_solver. }
  rewrite Hcases.
  destruct (DatabaseAdminApi_update_schema text' (world s1)) as [outcome w].
  simpl. rewrite Hcalls, <- !app_assoc.
  intros <-%app_inv_head Hin. unfold catalog_reads in Hin. simpl in Hin.
  rewrite !elem_of_cons, elem_of_nil in Hin.
  assert (text' = text) as -> by naive_solver.
  by exists all_models, s1, model.
Qed.

Lemma create_body_guard schema_change s new text :
  calls ((all_models ← models None;
          assert (bool_decide (SchemaUpdate.table schema_change ∉ dom all_models));;
          validate schema_change None;;
          text ← ddl schema_change None;
          update_schema text) s).2 = calls s ++ new →
  Submitted text ∈ new →
  ∃ all_models s1,
    models None s = (Returns all_models, s1) ∧
    all_models !! SchemaUpdate.table schema_change = None ∧
    SchemaUpdate.validate schema_change None = Returns () ∧
    SchemaUpdate.ddl schema_change None = Returns text ∧
    submissions new = [text].
Proof.
  pose proof (create_cases schema_change s) as Hcases. simpl in Hcases.
  destruct (models None s) as [[all_models|e] s1] eqn:Hmodels.
  2:{ rewrite Hcases. simpl.
      destruct (models_calls_of _ _ _ Hmodels) as (reads & -> & Hprefix & _).
      intros <-%app_inv_head Hin.
      by destruct (catalog_read_not_submission _ _ _ Hprefix Hin) as (? & ? & ?). }
  pose proof (models_returns_calls _ _ _ _ Hmodels) as Hcalls.
  destruct (all_models !! SchemaUpdate.table schema_change) as [model|] eqn:Hmodel.
  { rewrite Hcases. simpl. rewrite Hcalls. intros <-%app_inv_head Hin.
    unfold catalog_reads in Hin. rewrite !elem_of_cons, elem_of_nil in Hin.
    naive_solver. }
  destruct (SchemaUpdate.validate schema_change None) as [[]|e] eqn:Hvalidate.
  2:{ rewrite Hcases. simpl. rewrite Hcalls, <- !app_assoc.
      intros <-%app_inv_head Hin. unfold catalog_reads in Hin. simpl in Hin.
      rewrite !elem_of_cons, elem_of_nil in Hin. naive_solver. }
  destruct (SchemaUpdate.ddl schema_change None) as [text'|e] eqn:Hddl.
  2:{ rewrite Hcases. simpl. rewrite Hcalls, <- !app_assoc.
      intros <-%app_inv_head Hin. unfold catalog_reads in Hin. simpl in Hin.
      rewrite !elem_of_cons, elem_of_nil in Hin. naive_solver. }
  rewrite Hcases.
  destruct (DatabaseAdminApi_update_schema text' (world s1)) as [outcome w].
  simpl. rewrite Hcalls, <- !app_assoc.
  intros <-%app_inv_head Hin. unfold catalog_reads in Hin. simpl in Hin.
  rewrite !elem_of_cons, elem_of_nil in Hin.
  assert (text' = text) as -> by naive_solver.
  by exists all_models, s1.
Qed.

Lemma rejected_variant_calls (b : bool) {A} (k : M Transaction World A) s new e :
  b = false → calls ((assert b;; k) s).2 = calls s ++ new → e ∉ new.
Proof.
  intros -> Hnew. simpl in Hnew. rewrite <- (app_nil_r (calls s)) in Hnew at 1.
  apply app_inv_head in Hnew as <-. apply not_elem_of_nil.
Qed.

(** X7: a DDL text reaches [update_schema] only through the guards: if
    [text] is among the submissions of a [column_update] or [index_update]
    run, the request has the variant of that entry point, its table is in
    the model map the run fetched, [validate] accepted the request with
    that model, [ddl] rendered exactly [text] from it, and [text] is the
    only submission of the run; likewise for [create_table], with the
    table not in the model map and no model passed. *)
Theorem submission_presupposes_guards schema_change s text :
  (∀ new,
     calls (column_update schema_change s).2 = calls s ++ new →
     Submitted text ∈ new →
     SchemaUpdate.class schema_change = ColumnUpdate ∧
     ∃ all_models s1 model,
       models None s = (Returns all_models, s1) ∧
       all_models !! SchemaUpdate.table schema_change = Some model ∧
       SchemaUpdate.validate schema_change (Some model) = Returns () ∧
       SchemaUpdate.ddl schema_change (Some model) = Returns text ∧
       submissions new = [text]) ∧
  (∀ new,
     calls (create_table schema_change s).2 = calls s ++ new →
     Submitted text ∈ new →
     SchemaUpdate.class schema_change = CreateTableUpdate ∧
     ∃ all_models s1,
       models None s = (Returns all_models, s1) ∧
       all_models !! SchemaUpdate.table schema_change = None ∧
       SchemaUpdate.validate schema_change None = Returns () ∧
       SchemaUpdate.ddl schema_change None = Returns text ∧
       submissions new = [text]) ∧
  (∀ new,
     calls (index_update schema_change s).2 = calls s ++ new →
     Submitted text ∈ new →
     SchemaUpdate.class schema_change = IndexUpdate ∧
     ∃ all_models s1 model,
       models None s = (Returns all_models, s1) ∧
       all_models !! SchemaUpdate.table schema_change = Some model ∧
       SchemaUpdate.validate schema_change (Some model) = Returns () ∧
       SchemaUpdate.ddl schema_change (Some model) = Returns text ∧
       submissions new = [text]).
Proof.
  split; [|split]; intros new Hnew Hin.
  - destruct (decide (SchemaUpdate.class schema_change = ColumnUpdate)) as [Hclass|Hclass].
    + split; [done|]. rewrite column_update_body in Hnew by done.
      by eapply update_body_guard.
    + exfalso. eapply rejected_variant_calls; [by apply isinstance_false|..]; done.
  - destruct (decide (SchemaUpdate.class schema_change = CreateTableUpdate))
      as [Hclass|Hclass].
    + split; [done|]. rewrite create_table_body in Hnew by done.
      by eapply create_body_guard.
    + exfalso. eapply rejected_variant_calls; [by apply isinstance_false|..]; done.
  - destruct (decide (SchemaUpdate.class schema_change = IndexUpdate)) as [Hclass|Hclass].
    + split; [done|]. rewrite index_update_body in Hnew by done.
      by eapply update_body_guard.
    + exfalso. eapply rejected_variant_calls; [by apply isinstance_false|..]; done.
Qed.
End Guards.

(** ** Catalog reads: what the folds keep and what they ignore *)

Section NestedFoldMore.
Context {Row V : Type} (k1 k2 : Row → string) (v : Row → V).
Context (step : gmap string (gmap string V) → Row → gmap string (gmap string V)).
Hypothesis step_eq : ∀ acc row,
  step acc row = <[k1 row := <[k2 row := v row]> (getitem_default ∅ acc (k1 row))]> acc.

(** An inner dictionary is never empty: it holds the second key of a row
    that carries the outer key. *)
Lemma nested_fold_inner rows a inner :
  foldl step ∅ rows !! a = Some inner →
  ∃ row, row ∈ rows ∧ k1 row = a ∧ is_Some (inner !! k2 row).
Proof.
  intros Hinner.
  destruct (proj1 (nested_fold_outer k1 k2 v step step_eq rows a)) as (row & Hrow & Hkey);
    [by rewrite Hinner|].
  exists row. split; [done|]. split; [done|].
  pose proof (nested_fold_lookup k1 k2 v step step_eq rows a (k2 row)) as Hlookup.
  rewrite Hinner in Hlookup. simpl in Hlookup. rewrite Hlookup.
  apply fmap_is_Some, last_is_Some. intros Hnil.
  by apply (filter_nil_not_elem_of _ _ row) in Hnil.
Qed.

Lemma nested_fold_is_Some rows a b :
  is_Some (foldl step ∅ rows !! a ≫= (.!! b)) ↔
    ∃ row, row ∈ rows ∧ k1 row = a ∧ k2 row = b.
Proof.
  rewrite (nested_fold_lookup k1 k2 v step step_eq), fmap_is_Some, last_is_Some.
  split.
  - intros Hne. destruct (filter _ rows) as [|row l] eqn:Hfilter; [done|].
    assert (row ∈ filter (λ row, k1 row = a ∧ k2 row = b) rows) as Hin
      by (rewrite Hfilter; left).
    apply list_elem_of_filter in Hin as [[? ?] ?]. eauto.
  - intros (row & Hrow & Ha & Hb) Hnil.
    exact (filter_nil_not_elem_of _ rows row Hnil (conj Ha Hb) Hrow).
Qed.

(** Rows with the same pair of keys: at most one when the pairs are
    pairwise distinct. *)
Lemma same_keys_unique rows rows' a b :
  NoDup ((λ row, (k1 row, k2 row)) <$> rows) → rows ≡ₚ rows' →
  filter (λ row, k1 row = a ∧ k2 row = b) rows =
    filter (λ row, k1 row = a ∧ k2 row = b) rows'.
Proof.
  intros Hnodup Hperm.
  assert (filter (λ row, k1 row = a ∧ k2 row = b) rows ≡ₚ
          filter (λ row, k1 row = a ∧ k2 row = b) rows') as Hfilter by by rewrite Hperm.
  assert (NoDup ((λ row, (k1 row, k2 row)) <$>
                   filter (λ row, k1 row = a ∧ k2 row = b) rows)) as Hsub.
  { apply (sublist_NoDup _ ((λ row, (k1 row, k2 row)) <$> rows)); [done|].
    apply fmap_sublist, sublist_filter. }
  destruct (filter (λ row, k1 row = a ∧ k2 row = b) rows) as [|x [|y l]] eqn:Hrows.
  - symmetry. by apply Permutation_nil_r.
  - symmetry. by apply Permutation_singleton_r.
  - exfalso.
    assert (x ∈ filter (λ row, k1 row = a ∧ k2 row = b) rows) as Hx
      by (rewrite Hrows; left).
    assert (y ∈ filter (λ row, k1 row = a ∧ k2 row = b) rows) as Hy
      by (rewrite Hrows; right; left).
    apply list_elem_of_filter in Hx as [[? ?] _], Hy as [[? ?] _].
    rewrite !fmap_cons in Hsub. apply NoDup_cons in Hsub as [Hx _].
    apply Hx. replace (k1 x, k2 x) with (k1 y, k2 y) by congruence. left.
Qed.

(** With pairwise distinct key pairs the order of the rows does not show
    in the folded dictionary. *)
Lemma nested_fold_Permutation rows rows' :
  NoDup ((λ row, (k1 row, k2 row)) <$> rows) → rows ≡ₚ rows' →
  foldl step ∅ rows = foldl step ∅ rows'.
Proof.
  intros Hnodup Hperm. apply map_eq. intros a.
  destruct (foldl step ∅ rows !! a) as [inner|] eqn:Hinner,
           (foldl step ∅ rows' !! a) as [inner'|] eqn:Hinner'; [|exfalso..|done].
  - f_equal. apply map_eq. intros b.
    pose proof (nested_fold_lookup k1 k2 v step step_eq rows a b) as Hl.
    pose proof (nested_fold_lookup k1 k2 v step step_eq rows' a b) as Hl'.
    rewrite Hinner in Hl. rewrite Hinner' in Hl'. simpl in Hl, Hl'.
    by rewrite Hl, Hl', (same_keys_unique rows rows').
  - assert (is_Some (foldl step ∅ rows !! a)) as Hsome by by rewrite Hinner.
    apply (nested_fold_outer k1 k2 v step step_eq) in Hsome as (row & Hrow & Hkey).
    rewrite Hperm in Hrow.
    assert (is_Some (foldl step ∅ rows' !! a)) as [? ?]
      by (apply (nested_fold_outer k1 k2 v step step_eq); eauto).
    congruence.
  - assert (is_Some (foldl step ∅ rows' !! a)) as Hsome by by rewrite Hinner'.
    apply (nested_fold_outer k1 k2 v step step_eq) in Hsome as (row & Hrow & Hkey).
    rewrite <- Hperm in Hrow.
    assert (is_Some (foldl step ∅ rows !! a)) as [? ?]
      by (apply (nested_fold_outer k1 k2 v step step_eq); eauto).
    congruence.
Qed.
End NestedFoldMore.

Section CatalogReaderMore.
Context {Transaction World : Type} `{!Collaborators Transaction World}.
Implicit Types (s : State Transaction World) (transaction : option Transaction).
Import DatabaseMetadata.

(** X8: a failing catalog read ends [models] at once with the exception of
    that read: when the ColumnSchema fetch raises no index is read, when
    the IndexColumnSchema fetch raises the IndexSchema fetch is never
    issued, and when the IndexSchema fetch raises no model is built. *)
Theorem failed_read_stops_models transaction s e :
  (∀ w1,
     ColumnSchema_where transaction namespace_conditions (world s) = (Raises e, w1) →
     models transaction s =
       (Raises e,
        recorded (Fetched ColumnSchemaRows transaction namespace_conditions) w1 s)) ∧
  (∀ rows w1 w2,
     ColumnSchema_where transaction namespace_conditions (world s) = (Returns rows, w1) →
     IndexColumnSchema_where transaction index_column_conditions w1 = (Raises e, w2) →
     models transaction s =
       (Raises e,
        recorded (Fetched IndexColumnSchemaRows transaction index_column_conditions) w2
          (recorded (Fetched ColumnSchemaRows transaction namespace_conditions) w1 s))) ∧
  (∀ rows w1 columns w2 w3,
     ColumnSchema_where transaction namespace_conditions (world s) = (Returns rows, w1) →
     IndexColumnSchema_where transaction index_column_conditions w1
       = (Returns columns, w2) →
     IndexSchema_where transaction namespace_conditions w2 = (Raises e, w3) →
     models transaction s =
       (Raises e,
        recorded (Fetched IndexSchemaRows transaction namespace_conditions) w3
          (recorded (Fetched IndexColumnSchemaRows transaction index_column_conditions)
             w2
             (recorded (Fetched ColumnSchemaRows transaction namespace_conditions)
                w1 s)))).
Proof.
  pose proof (models_cases transaction s) as Hcases.
  split; [|split].
  - intros w1 Hrows. by rewrite Hrows in Hcases.
  - intros rows w1 w2 Hrows Hcolumns. rewrite Hrows in Hcases. simpl in Hcases.
    by rewrite Hcolumns in Hcases.
  - intros rows w1 columns w2 w3 Hrows Hcolumns Hindexes.
    rewrite Hrows in Hcases. simpl in Hcases.
    rewrite Hcolumns in Hcases. simpl in Hcases. by rewrite Hindexes in Hcases.
Qed.

(** X9: in the map [_tables] returns no table is left without column:
    every table entry holds the column of at least one fetched row of that
    table. *)
Theorem tables_entries_not_empty transaction s rows w :
  ColumnSchema_where transaction namespace_conditions (world s) = (Returns rows, w) →
  ∃ tables s',
    _tables transaction s = (Returns tables, s') ∧
    ∀ table columns,
      tables !! table = Some columns →
      columns ≠ ∅ ∧
      ∃ row, row ∈ rows ∧ ColumnSchema.table_name row = table ∧
             is_Some (columns !! ColumnSchema.column_name row).
Proof.
  intros Hfetch. eexists _, _. split; [by apply _tables_run|].
  intros table columns Hcolumns. rewrite tables_fold_lookup in Hcolumns.
  destruct (nested_fold_inner ColumnSchema.table_name ColumnSchema.column_name
              ColumnSchema.type tables_step (λ _ _, eq_refl) rows table columns Hcolumns)
    as (row & Hrow & Htable & Hcolumn).
  split; [|by eauto].
  intros ->. rewrite lookup_empty in Hcolumn. by destruct Hcolumn.
Qed.

(** X10: when no two fetched ColumnSchema rows share table and column, the
    map [_tables] returns does not depend on the order in which the fetch
    hands the rows over: the two dictionaries hold the same entries, so
    they are equal for [==], and enumerate the same tables, possibly in
    another order. *)
Theorem tables_independent_of_row_order transaction s rows w transaction' s' rows' w' :
  ColumnSchema_where transaction namespace_conditions (world s) = (Returns rows, w) →
  ColumnSchema_where transaction' namespace_conditions (world s') = (Returns rows', w') →
  NoDup ((λ row, (ColumnSchema.table_name row, ColumnSchema.column_name row)) <$> rows) →
  rows ≡ₚ rows' →
  ∃ tables tables',
    (_tables transaction s).1 = Returns tables ∧
    (_tables transaction' s').1 = Returns tables' ∧
    content tables = content tables' ∧
    (∀ table, tables !! table = tables' !! table) ∧
    keys tables ≡ₚ keys tables'.
Proof.
  intros Hrows Hrows' Hnodup Hperm.
  rewrite (_tables_run _ _ _ _ Hrows), (_tables_run _ _ _ _ Hrows'). simpl.
  eexists _, _. split; [done|]. split; [done|].
  assert (content (foldl tables_setitem ∅ rows) = content (foldl tables_setitem ∅ rows'))
    as Hcontent.
  { rewrite !tables_fold_content.
    by apply (nested_fold_Permutation ColumnSchema.table_name ColumnSchema.column_name
                ColumnSchema.type tables_step (λ _ _, eq_refl)). }
  split; [done|]. split.
  - intros table. unfold lookup, Dict_lookup. by rewrite Hcontent.
  - destruct (tables_fold_well_formed rows) as [Hkeys Hdom].
    destruct (tables_fold_well_formed rows') as [Hkeys' Hdom'].
    apply NoDup_Permutation; [done..|].
    intros table. rewrite Hdom, Hdom'. unfold lookup, Dict_lookup. by rewrite Hcontent.
Qed.

(** X11: the map [_indexes] returns has an entry for exactly the (table,
    index) pairs of the fetched IndexSchema rows: index columns fetched for
    an index without IndexSchema row are dropped, and no table entry is
    left without index. *)
Theorem indexes_entries_are_index_rows transaction s rows w index_rows w' :
  IndexColumnSchema_where transaction index_column_conditions (world s)
    = (Returns rows, w) →
  IndexSchema_where transaction namespace_conditions w = (Returns index_rows, w') →
  ∃ indexes s',
    _indexes transaction s = (Returns indexes, s') ∧
    (∀ table index_name,
       is_Some (indexes !! table ≫= (.!! index_name)) ↔
       ∃ schema, schema ∈ index_rows ∧ IndexSchema.table_name schema = table ∧
                 IndexSchema.index_name schema = index_name) ∧
    (∀ table entries, indexes !! table = Some entries → entries ≠ ∅).
Proof.
  intros Hrows Hindexes. eexists _, _. split; [by eapply _indexes_run|].
  split.
  - intros table index_name.
    apply (nested_fold_is_Some IndexSchema.table_name IndexSchema.index_name
             _ (indexes_step (foldl index_columns_step ∅ rows)) (λ _ _, eq_refl)).
  - intros table entries Hentries.
    destruct (nested_fold_inner IndexSchema.table_name IndexSchema.index_name
                _ (indexes_step (foldl index_columns_step ∅ rows)) (λ _ _, eq_refl)
                index_rows table entries Hentries)
      as (schema & _ & _ & Hentry).
    intros ->. rewrite lookup_empty in Hentry. by destruct Hentry.
Qed.

(** X12: [_indexes] takes the fetched index columns as they come: whatever
    the IndexColumnSchema fetch answers, the column sequence of an entry is
    the column names of all fetched rows of that table and index, in fetch
    order, with repetitions; the code neither sorts by position nor drops
    rows without position itself. *)
Theorem indexes_columns_follow_fetch_order transaction s rows w index_rows w' :
  IndexColumnSchema_where transaction index_column_conditions (world s)
    = (Returns rows, w) →
  IndexSchema_where transaction namespace_conditions w = (Returns index_rows, w') →
  ∃ indexes s',
    _indexes transaction s = (Returns indexes, s') ∧
    ∀ table index_name entry,
      indexes !! table ≫= (.!! index_name) = Some entry →
      Index.columns entry =
        IndexColumnSchema.column_name <$>
          filter (λ row, IndexColumnSchema.table_name row = table ∧
                         IndexColumnSchema.index_name row = index_name) rows.
Proof.
  intros Hrows Hindexes. eexists _, _. split; [by eapply _indexes_run|].
  intros table index_name entry. rewrite indexes_fold_lookup. intros Hentry.
  apply fmap_Some in Hentry as (schema & _ & ->). simpl.
  apply index_columns_fold_lookup.
Qed.

(** X13: when no two fetched IndexSchema rows share table and index, the
    map [_indexes] returns does not depend on the order of the IndexSchema
    rows (the order of the IndexColumnSchema rows being the same). *)
Theorem indexes_independent_of_index_row_order
    transaction s rows w index_rows w1 transaction' s' w' index_rows' w1' :
  IndexColumnSchema_where transaction index_column_conditions (world s)
    = (Returns rows, w) →
  IndexSchema_where transaction namespace_conditions w = (Returns index_rows, w1) →
  IndexColumnSchema_where transaction' index_column_conditions (world s')
    = (Returns rows, w') →
  IndexSchema_where transaction' namespace_conditions w' = (Returns index_rows', w1') →
  NoDup ((λ schema, (IndexSchema.table_name schema, IndexSchema.index_name schema))
           <$> index_rows) →
  index_rows ≡ₚ index_rows' →
  (_indexes transaction s).1 = (_indexes transaction' s').1.
Proof.
  intros Hrows Hindexes Hrows' Hindexes' Hnodup Hperm.
  rewrite (_indexes_run _ _ _ _ _ _ Hrows Hindexes),
    (_indexes_run _ _ _ _ _ _ Hrows' Hindexes').
  simpl. f_equal.
  by apply (nested_fold_Permutation IndexSchema.table_name IndexSchema.index_name
              _ (indexes_step (foldl index_columns_step ∅ rows)) (λ _ _, eq_refl)).
Qed.
End CatalogReaderMore.

(** ** Model synthesis: what the loop depends on *)


Section ModelSynthesizerMore.
Context {Transaction World : Type} `{!Collaborators Transaction World}.
Implicit Types (s : State Transaction World) (transaction : option Transaction).
Import DatabaseMetadata.

(** X15: when [models] returns, every table of the tables map has a
    'PRIMARY_KEY' index, and every class of the result belongs to a table
    of the tables map (an index on a table without columns yields no
    class), is named 'Model_' followed by the table name and answers
    [table()] with that name; so two classes with the same name are the
    class of the same table. *)
Theorem models_returned_classes transaction s tables s1 indexes s2 results s' :
  _tables transaction s = (Returns tables, s1) →
  _indexes transaction s1 = (Returns indexes, s2) →
  models transaction s = (Returns results, s') →
  s' = s2 ∧
  (∀ table schema, tables !! table = Some schema →
                   is_Some (indexes !! table ≫= (.!! "PRIMARY_KEY"))) ∧
  (∀ table klass, results !! table = Some klass →
                  is_Some (tables !! table) ∧
                  Model.name klass = "Model_" +:+ table ∧
                  Model.table klass () = table) ∧
  (∀ table table' klass klass',
     results !! table = Some klass → results !! table' = Some klass' →
     Model.name klass = Model.name klass' → table = table').
Proof.
  intros Htables Hindexes Hmodels.
  rewrite (models_run _ _ _ _ _ _ Htables Hindexes) in Hmodels.
  pose proof (models_loop_spec tables indexes (_tables_well_formed _ _ _ _ Htables))
    as Hloop.
  injection Hmodels as Hresults <-. rewrite Hresults in Hloop.
  assert (∀ table klass, results !! table = Some klass →
            is_Some (tables !! table) ∧ Model.name klass = "Model_" +:+ table ∧
            Model.table klass () = table) as Hclass.
  { intros table klass Hklass. specialize (Hloop table).
    destruct (tables !! table) as [schema|]; [|congruence].
    destruct Hloop as (klass0 & primary_key & Hklass0 & _ & Hname & _ & _ & Htable & _).
    assert (klass0 = klass) as -> by congruence. eauto. }
  split; [done|]. split; [|split; [done|]].
  - intros table schema Hschema. specialize (Hloop table). rewrite Hschema in Hloop.
    destruct Hloop as (_ & primary_key & _ & -> & _). by eexists.
  - intros table table' klass klass' Hklass Hklass' Hname.
    apply Hclass in Hklass as (_ & Hn & _), Hklass' as (_ & Hn' & _).
    rewrite Hn, Hn' in Hname. by simplify_eq/=.
Qed.

End ModelSynthesizerMore.

(** ** Instances of the further properties *)

Lemma update_submits_rendered_ddl_witness :
  (∃ s', DatabaseMetadata.column_update (request ColumnUpdate "Users" (Returns ()))
           (start users_db) = (Returns (), s') ∧
         submissions (calls s') = ["DDL Users"] ∧
         received (world s') = ["DDL Users"]) ∧
  (∃ s', DatabaseMetadata.index_update (request IndexUpdate "Users" (Returns ()))
           (start_site AdminDown users_db) = (Raises SubmissionError, s') ∧
         submissions (calls s') = ["DDL Users"]).
Proof.
  split.
  - pose (all_models := returned ∅ (DatabaseMetadata.models None (start users_db)).1).
    pose (s1 := (DatabaseMetadata.models None (start users_db)).2).
    assert (DatabaseMetadata.models None (start users_db) = (Returns all_models, s1))
      as Hmodels by (vm_compute; reflexivity).
    destruct (all_models !! "Users") as [model|] eqn:Hmodel;
      [|vm_compute in Hmodel; discriminate].
    edestruct (update_submits_rendered_ddl (request ColumnUpdate "Users" (Returns ()))
                 (start users_db) all_models s1 model "DDL Users")
      as (s' & Hworld & _ & Hsubmissions & Hcolumn & _);
      [exact Hmodels|exact Hmodel|reflexivity|reflexivity|reflexivity|].
    exists s'. split; [exact (Hcolumn eq_refl)|]. split; [exact Hsubmissions|].
    rewrite Hworld. reflexivity.
  - pose (all_models :=
      returned ∅ (DatabaseMetadata.models None (start_site AdminDown users_db)).1).
    pose (s1 := (DatabaseMetadata.models None (start_site AdminDown users_db)).2).
    assert (DatabaseMetadata.models None (start_site AdminDown users_db)
            = (Returns all_models, s1)) as Hmodels by (vm_compute; reflexivity).
    destruct (all_models !! "Users") as [model|] eqn:Hmodel;
      [|vm_compute in Hmodel; discriminate].
    edestruct (update_submits_rendered_ddl (request IndexUpdate "Users" (Returns ()))
                 (start_site AdminDown users_db) all_models s1 model "DDL Users")
      as (s' & _ & _ & Hsubmissions & _ & Hindex);
      [exact Hmodels|exact Hmodel|reflexivity|reflexivity|reflexivity|].
    exists s'. split; [exact (Hindex eq_refl)|exact Hsubmissions].
Defined.

Lemma create_submits_rendered_ddl_witness :
  ∃ s', DatabaseMetadata.create_table (request CreateTableUpdate "Orders" (Returns ()))
          (start users_db) = (Returns (), s') ∧
        submissions (calls s') = ["DDL Orders"] ∧
        received (world s') = ["DDL Orders"].
Proof.
  pose (all_models := returned ∅ (DatabaseMetadata.models None (start users_db)).1).
  pose (s1 := (DatabaseMetadata.models None (start users_db)).2).
  edestruct (create_submits_rendered_ddl (request CreateTableUpdate "Orders" (Returns ()))
               (start users_db) all_models s1 "DDL Orders")
    as (s' & Hrun & Hworld & _ & Hsubmissions);
    [reflexivity|vm_compute; reflexivity|vm_compute; reflexivity
    |reflexivity|reflexivity|reflexivity|].
  exists s'. split; [exact Hrun|]. split; [exact Hsubmissions|].
  rewrite Hworld. reflexivity.
Defined.

Lemma failed_rendering_submits_nothing_witness :
  (∃ s', DatabaseMetadata.column_update
           (request_rendering ColumnUpdate "Users" (Returns ()) (Raises RenderError))
           (start users_db) = (Raises RenderError, s') ∧
         submissions (calls s') = []) ∧
  (∃ s', DatabaseMetadata.create_table
           (request_rendering CreateTableUpdate "Orders" (Returns ()) (Raises RenderError))
           (start users_db) = (Raises RenderError, s') ∧
         submissions (calls s') = []).
Proof.
  pose (all_models := returned ∅ (DatabaseMetadata.models None (start users_db)).1).
  pose (s1 := (DatabaseMetadata.models None (start users_db)).2).
  assert (DatabaseMetadata.models None (start users_db) = (Returns all_models, s1))
    as Hmodels by (vm_compute; reflexivity).
  destruct (all_models !! "Users") as [model|] eqn:Hmodel;
    [|vm_compute in Hmodel; discriminate].
  split.
  - destruct (failed_rendering_submits_nothing
                (request_rendering ColumnUpdate "Users" (Returns ()) (Raises RenderError))
                (start users_db) all_models s1 RenderError Hmodels) as [Hupdate _].
    destruct (Hupdate model Hmodel eq_refl eq_refl) as (s' & _ & Hquiet & Hcolumn & _).
    exists s'. split; [exact (Hcolumn eq_refl)|exact Hquiet].
  - destruct (failed_rendering_submits_nothing
                (request_rendering CreateTableUpdate "Orders" (Returns ())
                   (Raises RenderError))
                (start users_db) all_models s1 RenderError Hmodels) as [_ Hcreate].
    destruct Hcreate as (s' & Hrun & _ & Hquiet);
      [reflexivity|vm_compute; reflexivity|reflexivity|reflexivity|].
    exists s'. split; [exact Hrun|exact Hquiet].
Defined.

Lemma failed_models_stops_change_witness :
  DatabaseMetadata.column_update (request ColumnUpdate "Users" (Returns ()))
      (start_site ColumnsDown users_db)
    = (Raises CatalogReadError,
       (DatabaseMetadata.models None (start_site ColumnsDown users_db)).2) ∧
  DatabaseMetadata.create_table (request CreateTableUpdate "Orders" (Returns ()))
      (start_site IndexesDown users_db)
    = (Raises CatalogReadError,
       (DatabaseMetadata.models None (start_site IndexesDown users_db)).2).
Proof.
  split.
  - apply (failed_models_stops_change (request ColumnUpdate "Users" (Returns ()))
             (start_site ColumnsDown users_db) CatalogReadError);
      [vm_compute; reflexivity|reflexivity].
  - apply (failed_models_stops_change (request CreateTableUpdate "Orders" (Returns ()))
             (start_site IndexesDown users_db) CatalogReadError);
      [vm_compute; reflexivity|reflexivity].
Defined.


Lemma submission_presupposes_guards_witness :
  SchemaUpdate.class (request ColumnUpdate "Users" (Returns ())) = ColumnUpdate ∧
  submissions
    (calls (DatabaseMetadata.column_update (request ColumnUpdate "Users" (Returns ()))
              (start users_db)).2) = ["DDL Users"].
Proof.
  destruct (submission_presupposes_guards (request ColumnUpdate "Users" (Returns ()))
              (start users_db) "DDL Users") as (Hcolumn & _).
  destruct (Hcolumn
              (calls (DatabaseMetadata.column_update
                        (request ColumnUpdate "Users" (Returns ())) (start users_db)).2))
    as (Hclass & all_models & s1 & model & _ & _ & _ & _ & Hsubmissions).
  - reflexivity.
  - vm_compute. do 5 right. left.
  - split; [exact Hclass|exact Hsubmissions].
Defined.

Lemma failed_read_stops_models_witness :
  DatabaseMetadata.models (Some 7%nat) (start_site ColumnsDown users_db)
    = (Raises CatalogReadError,
       recorded (Fetched ColumnSchemaRows (Some 7%nat)
                   DatabaseMetadata.namespace_conditions)
         {| outage := ColumnsDown; database := users_db |}
         (start_site ColumnsDown users_db)) ∧
  calls (DatabaseMetadata.models (Some 7%nat) (start_site IndexColumnsDown users_db)).2
    = [Fetched ColumnSchemaRows (Some 7%nat) DatabaseMetadata.namespace_conditions;
       Fetched IndexColumnSchemaRows (Some 7%nat)
         DatabaseMetadata.index_column_conditions].
Proof.
  split.
  - destruct (failed_read_stops_models (Some 7%nat) (start_site ColumnsDown users_db)
                CatalogReadError) as (Hfirst & _).
    apply Hfirst. reflexivity.
  - destruct (failed_read_stops_models (Some 7%nat)
                (start_site IndexColumnsDown users_db) CatalogReadError)
      as (_ & Hsecond & _).
    erewrite Hsecond; reflexivity.
Defined.

Lemma tables_entries_not_empty_witness :
  ∃ tables,
    (DatabaseMetadata._tables (Some 7%nat) (start users_db)).1 = Returns tables ∧
    is_Some (tables !! "Users") ∧
    ∀ table columns, tables !! table = Some columns → columns ≠ ∅.
Proof.
  assert (ColumnSchema_where (Some 7%nat) DatabaseMetadata.namespace_conditions
            (world (start users_db))
          = (Returns (reference_where ColumnSchema.field
                        DatabaseMetadata.namespace_conditions (COLUMNS users_db)),
             users_db)) as Hfetch by reflexivity.
  destruct (tables_entries_not_empty _ _ _ _ Hfetch) as (tables & s' & Hrun & Hfull).
  exists tables. split; [rewrite Hrun; reflexivity|]. split.
  - injection Hrun as <- _. eexists. vm_compute. reflexivity.
  - intros table columns Hcolumns. exact (proj1 (Hfull table columns Hcolumns)).
Defined.

Lemma tables_independent_of_row_order_witness :
  ∃ tables tables',
    (DatabaseMetadata._tables (Some true) (start_careless shop_db)).1 = Returns tables ∧
    (DatabaseMetadata._tables None (start_careless shop_db_reordered)).1
      = Returns tables' ∧
    content tables = content tables' ∧
    (∀ table, tables !! table = tables' !! table) ∧
    keys tables ≡ₚ keys tables'.
Proof.
  apply (tables_independent_of_row_order (Some true) (start_careless shop_db)
           (COLUMNS shop_db) shop_db None (start_careless shop_db_reordered)
           (reverse (COLUMNS shop_db)) shop_db_reordered).
  - reflexivity.
  - reflexivity.
  - apply (bool_decide_unpack _). vm_compute. exact I.
  - symmetry. apply reverse_Permutation.
Defined.

Lemma indexes_entries_are_index_rows_witness :
  ∃ indexes,
    (DatabaseMetadata._indexes None (start_careless mixed_db)).1 = Returns indexes ∧
    is_Some (indexes !! "Users" ≫= (.!! "PRIMARY_KEY")) ∧
    ∀ table entries, indexes !! table = Some entries → entries ≠ ∅.
Proof.
  edestruct (indexes_entries_are_index_rows None (start_careless mixed_db)
               (INDEX_COLUMNS mixed_db) mixed_db (INDEXES mixed_db) mixed_db)
    as (indexes & s' & Hrun & Hentries & Hfull); [reflexivity|reflexivity|].
  exists indexes. split; [rewrite Hrun; reflexivity|]. split; [|exact Hfull].
  apply Hentries. exists (index "Users" "PRIMARY_KEY" "PRIMARY_KEY" true).
  split; [left|split; reflexivity].
Defined.

Lemma indexes_columns_follow_fetch_order_witness :
  ∃ indexes entry,
    (DatabaseMetadata._indexes None (start_careless users_db)).1 = Returns indexes ∧
    indexes !! "Users" ≫= (.!! "ByName") = Some entry ∧
    Index.columns entry = ["email"; "id"; "name"].
Proof.
  edestruct (indexes_columns_follow_fetch_order None (start_careless users_db)
               (INDEX_COLUMNS users_db) users_db (INDEXES users_db) users_db)
    as (indexes & s' & Hrun & Hcolumns); [reflexivity|reflexivity|].
  destruct (indexes !! "Users" ≫= (.!! "ByName")) as [entry|] eqn:Hentry.
  - exists indexes, entry. split; [rewrite Hrun; reflexivity|]. split; [exact Hentry|].
    rewrite (Hcolumns "Users" "ByName" entry Hentry). vm_compute. reflexivity.
  - injection Hrun as <- _. vm_compute in Hentry. discriminate.
Defined.

Lemma indexes_independent_of_index_row_order_witness :
  (DatabaseMetadata._indexes (Some true) (start_careless shop_db)).1 =
    (DatabaseMetadata._indexes None (start_careless shop_db_reordered)).1.
Proof.
  apply (indexes_independent_of_index_row_order
           (Some true) (start_careless shop_db) (INDEX_COLUMNS shop_db) shop_db
           (INDEXES shop_db) shop_db
           None (start_careless shop_db_reordered) shop_db_reordered
           (reverse (INDEXES shop_db)) shop_db_reordered).
  - reflexivity.
  - reflexivity.
  - reflexivity.
  - reflexivity.
  - apply (bool_decide_unpack _). vm_compute. exact I.
  - symmetry. apply reverse_Permutation.
Defined.


Lemma models_returned_classes_witness :
  ∃ results s',
    DatabaseMetadata.models (Some 7%nat) (start shop_db) = (Returns results, s') ∧
    is_Some (results !! "Orders") ∧
    ∀ table klass, results !! table = Some klass →
                   Model.name klass = "Model_" +:+ table.
Proof.
  pose (tables :=
    foldl DatabaseMetadata.tables_setitem ∅
      (reference_where ColumnSchema.field DatabaseMetadata.namespace_conditions
         (COLUMNS shop_db))).
  pose (indexes :=
    foldl (DatabaseMetadata.indexes_step
             (foldl DatabaseMetadata.index_columns_step ∅
                (reference_where IndexColumnSchema.field
                   DatabaseMetadata.index_column_conditions (INDEX_COLUMNS shop_db))))
      ∅ (reference_where IndexSchema.field DatabaseMetadata.namespace_conditions
           (INDEXES shop_db))).
  pose (s1 :=
    recorded (Fetched ColumnSchemaRows (Some 7%nat) DatabaseMetadata.namespace_conditions)
      shop_db (start shop_db)).
  pose (s2 :=
    recorded (Fetched IndexSchemaRows (Some 7%nat) DatabaseMetadata.namespace_conditions)
      shop_db
      (recorded (Fetched IndexColumnSchemaRows (Some 7%nat)
                   DatabaseMetadata.index_column_conditions) shop_db s1)).
  pose (results :=
    returned ∅ (DatabaseMetadata.models (Some 7%nat) (start shop_db)).1).
  assert (DatabaseMetadata.models (Some 7%nat) (start shop_db) = (Returns results, s2))
    as Hmodels by (vm_compute; reflexivity).
  edestruct (models_returned_classes (Some 7%nat) (start shop_db) tables s1 indexes s2
               results s2) as (_ & _ & Hclasses & _);
    [reflexivity|reflexivity|exact Hmodels|].
  exists results, s2. split; [exact Hmodels|]. split.
  - eexists. vm_compute. reflexivity.
  - intros table klass Hklass. exact (proj1 (proj2 (Hclasses table klass Hklass))).
Defined.

